(** * LOKI: syslog framing detection, HTTP error mapping, memberlist KV lifecycle

    Shallow embedding of three Go sources:
    - clients/pkg/promtail/targets/syslog/syslogparser/syslogparser.go
    - the [server] package's [WriteError]
    - vendor/github.com/grafana/dskit/kv/memberlist/kv_init_service.go

    Go [string] and [[]byte] values are byte sequences and are both modelled
    by [string] (a sequence of 8-bit [ascii]); Go [int] is [Z]; a nilable
    [error] is [option error]. *)

From stdpp Require Import base strings list gmap pretty.
From Stdlib Require Import ZArith Ascii String Lia.

Set Warnings "-register-all".
Open Scope string_scope.
Open Scope list_scope.

(** ** net/http response writers

    [http.ResponseWriter] is an interface and the handlers only call its
    methods.  A writer is modelled by the calls it has received, oldest
    first, which is what every implementation observes.  What the calls
    return is not modelled: a [Write] is taken to succeed. *)
Module http.

Inductive Call :=
| HeaderSet (k v : string)        (* w.Header().Set(k, v) *)
| HeaderAdd (k v : string)        (* w.Header().Add(k, v) *)
| WriteHeader (code : Z)          (* w.WriteHeader(code) *)
| Write (b : string)              (* w.Write(b) *)
| Error (msg : string) (code : Z) (* http.Error(w, msg, code) *).

Definition ResponseWriter := list Call.

Definition call (w : ResponseWriter) (c : Call) : ResponseWriter := w ++ [c].

Definition StatusOK : Z := 200.
Definition StatusFound : Z := 302.
Definition StatusBadRequest : Z := 400.
Definition StatusNotFound : Z := 404.
Definition StatusInternalServerError : Z := 500.
Definition StatusGatewayTimeout : Z := 504.

(** The status line a server sends for a sequence of calls: the first call
    that commits the header decides it ([Write] commits 200, [http.Error]
    commits its code); later [WriteHeader] calls are superfluous. *)
Fixpoint status (w : ResponseWriter) : option Z :=
  match w with
  | [] => None
  | WriteHeader c :: _ => Some c
  | Write _ :: _ => Some StatusOK
  | Error _ c :: _ => Some c
  | _ :: rest => status rest
  end.

End http.

(** ** syslogparser.ParseStream *)
Module syslogparser.

(** An [io.Reader] as [bufio] sees it: the bytes it delivers, then the error
    that ends it ([io.EOF] or any other). *)
Record Reader (ioerr : Type) := mkReader { data : string; rerr : ioerr }.
Arguments mkReader {ioerr} _ _.
Arguments data {ioerr} _.
Arguments rerr {ioerr} _.

(** Errors [ParseStream] can return: the reader's own, or the one built by
    [fmt.Errorf]. *)
Inductive error (ioerr : Type) :=
| ReadError (e : ioerr)
| Errorf (msg : string).
Arguments ReadError {ioerr} _.
Arguments Errorf {ioerr} _.

(** [buf.Peek(1)]: the first byte without consuming it, or the read error
    when no byte can be had. *)
Definition Peek1 {ioerr} (r : Reader ioerr) : ascii + ioerr :=
  match data r with
  | String b _ => inl b
  | EmptyString => inr (rerr r)
  end.

Section ParseStream.
Context {ioerr Result : Type}.
(** The parsers of influxdata/go-syslog, by the results they hand to the
    listener for a maximal message length and an input. *)
Variable nontransparent_Parse : Z -> Reader ioerr -> list Result.
Variable octetcounting_Parse : Z -> Reader ioerr -> list Result.

(** Returned error, and the results passed to [callback] in order. *)
Definition ParseStream (r : Reader ioerr) (maxMessageLength : Z)
  : option (error ioerr) * list Result :=
  match Peek1 r with
  | inr err => (Some (ReadError err), [])
  | inl b =>
      if Ascii.eqb b "<" then
        (None, nontransparent_Parse maxMessageLength r)
      else if Ascii.leb "0" b && Ascii.leb b "9" then
        (None, octetcounting_Parse maxMessageLength r)
      else
        (Some (Errorf ("invalid or unsupported framing. first byte: '"
                       +:+ String b "'")), [])
  end.

(** Byte comparison [a <= b] of the source is comparison of byte codes. *)
Lemma leb_code (a b : ascii) :
  Ascii.leb a b = true <-> (nat_of_ascii a <= nat_of_ascii b)%nat.
Proof.
  unfold Ascii.leb, Ascii.compare, nat_of_ascii.
  destruct (N.compare_spec (N_of_ascii a) (N_of_ascii b)); split; intros; try done; lia.
Qed.

Lemma digit_code (b : ascii) :
  Ascii.leb "0" b && Ascii.leb b "9" = true
  <-> (48 <= nat_of_ascii b <= 57)%nat.
Proof.
  rewrite andb_true_iff, !leb_code. change (nat_of_ascii "0") with 48%nat.
  change (nat_of_ascii "9") with 57%nat. done.
Qed.

(** The branches of [ParseStream], by the first byte of the input. *)
Lemma ParseStream_cases (r : Reader ioerr) (maxMessageLength : Z) :
  match data r with
  | EmptyString =>
      ParseStream r maxMessageLength = (Some (ReadError (rerr r)), [])
  | String b _ =>
      (b = "<"%char ->
       ParseStream r maxMessageLength
       = (None, nontransparent_Parse maxMessageLength r)) /\
      ((48 <= nat_of_ascii b <= 57)%nat ->
       ParseStream r maxMessageLength
       = (None, octetcounting_Parse maxMessageLength r)) /\
      (b <> "<"%char -> ~ (48 <= nat_of_ascii b <= 57)%nat ->
       ParseStream r maxMessageLength
       = (Some (Errorf ("invalid or unsupported framing. first byte: '"
                        +:+ String b "'")), []))
  end.
Proof.
  unfold ParseStream, Peek1. destruct (data r) as [|b rest]; [done|].
  destruct (Ascii.eqb_spec b "<") as [->|Hne].
  - split; [done|split]; [|done].
    change (nat_of_ascii "<") with 60%nat. lia.
  - destruct (Ascii.leb "0" b && Ascii.leb b "9") eqn:Hd.
    + split; [done|split]; [done|]. intros _ Hr. by apply digit_code in Hd.
    + split; [done|split]; [|done]. intros Hr. apply digit_code in Hr.
      congruence.
Qed.


(** C10. [ParseStream] looks at the first byte only: an input with no byte
    returns the read error; a first byte '<' runs the non-transparent
    parser and a first byte in '0'..'9' (codes 48..57) the octet-counting
    parser, both on the whole input and both returning nil; any other
    first byte returns the framing error and the callback is never
    invoked. *)
Theorem ParseStream_framing (r : Reader ioerr) (maxMessageLength : Z) :
  match data r with
  | EmptyString =>
      ParseStream r maxMessageLength = (Some (ReadError (rerr r)), [])
  | String b _ =>
      (b = "<"%char ->
       ParseStream r maxMessageLength
       = (None, nontransparent_Parse maxMessageLength r)) /\
      ((48 <= nat_of_ascii b <= 57)%nat ->
       ParseStream r maxMessageLength
       = (None, octetcounting_Parse maxMessageLength r)) /\
      (b <> "<"%char -> ~ (48 <= nat_of_ascii b <= 57)%nat ->
       ParseStream r maxMessageLength
       = (Some (Errorf ("invalid or unsupported framing. first byte: '"
                        +:+ String b "'")), []))
  end.
Proof. apply ParseStream_cases. Qed.

(** X1. The returned error is a function of the first byte alone: neither the
    rest of the input nor the length bound changes it. *)
Theorem ParseStream_error_first_byte_only
    (r1 r2 : Reader ioerr) (m1 m2 : Z) :
  Peek1 r1 = Peek1 r2 ->
  fst (ParseStream r1 m1) = fst (ParseStream r2 m2).
Proof.
  unfold ParseStream. intros ->. destruct (Peek1 r2) as [b|e]; [|done].
  destruct (Ascii.eqb b "<"); [done|].
  by destruct (Ascii.leb "0" b && Ascii.leb b "9").
Qed.

(** X2. Whenever [ParseStream] returns an error, no parser ran: the callback
    received nothing. *)
Theorem ParseStream_error_no_callback
    (r : Reader ioerr) (m : Z) (e : error ioerr) :
  fst (ParseStream r m) = Some e -> snd (ParseStream r m) = [].
Proof.
  unfold ParseStream. destruct (Peek1 r) as [b|?]; [|done].
  destruct (Ascii.eqb b "<"); [done|].
  by destruct (Ascii.leb "0" b && Ascii.leb b "9").
Qed.

(** X3. [ParseStream] returns nil exactly when the input starts with '<' or
    with a decimal digit; parse failures inside a message are never
    returned. *)
Theorem ParseStream_nil_iff (r : Reader ioerr) (m : Z) :
  fst (ParseStream r m) = None
  <-> exists b rest, data r = String b rest /\
        (b = "<"%char \/ (48 <= nat_of_ascii b <= 57)%nat).
Proof.
  pose proof (ParseStream_cases r m) as H.
  destruct (data r) as [|b rest] eqn:Hd.
  - rewrite H. split; [done|]. by intros (?&?&?&?).
  - destruct H as (H1&H2&H3). split.
    + intros Hn. exists b, rest. split; [done|].
      destruct (Ascii.eqb_spec b "<") as [->|Hne]; [by left|].
      destruct (decide (48 <= nat_of_ascii b <= 57)%nat) as [?|Hnd]; [by right|].
      rewrite (H3 Hne Hnd) in Hn. done.
    + intros (b'&rest'&[= <- <-]&[->|Hr]); [by rewrite H1|by rewrite H2].
Qed.
End ParseStream.

(** A concrete setting: readers ending in [io.EOF] (the unit error), and
    parsers that report the framing they implement with the bound and the
    input they were given. *)
Inductive Framing := NonTransparent | OctetCounting.

Definition probe (f : Framing) (m : Z) (r : Reader unit)
  : list (Framing * Z * string) := [(f, m, data r)].

Lemma ParseStream_framing_witness :
  ParseStream (probe NonTransparent) (probe OctetCounting)
    (mkReader "<34>1 - - - - - - hi" ()) 8192
  = (None, [(NonTransparent, 8192%Z, "<34>1 - - - - - - hi")]) /\
  ParseStream (probe NonTransparent) (probe OctetCounting)
    (mkReader "20 <34>1 - - - - - - hi" ()) 8192
  = (None, [(OctetCounting, 8192%Z, "20 <34>1 - - - - - - hi")]) /\
  ParseStream (probe NonTransparent) (probe OctetCounting)
    (mkReader "hello" ()) 8192
  = (Some (Errorf "invalid or unsupported framing. first byte: 'h'"), []).
Proof.
  split; [|split].
  - apply (ParseStream_framing (probe NonTransparent) (probe OctetCounting)
             (mkReader "<34>1 - - - - - - hi" ()) 8192). reflexivity.
  - apply (ParseStream_framing (probe NonTransparent) (probe OctetCounting)
             (mkReader "20 <34>1 - - - - - - hi" ()) 8192). vm_compute. lia.
  - apply (ParseStream_framing (probe NonTransparent) (probe OctetCounting)
             (mkReader "hello" ()) 8192); [done|vm_compute; lia].
Defined.

Lemma ParseStream_error_first_byte_only_witness :
  fst (ParseStream (probe NonTransparent) (probe OctetCounting)
         (mkReader "<1>a" ()) 10)
  = fst (ParseStream (probe NonTransparent) (probe OctetCounting)
           (mkReader "<2>bcd" ()) 4096).
Proof.
  apply (ParseStream_error_first_byte_only (probe NonTransparent)
           (probe OctetCounting) (mkReader "<1>a" ()) (mkReader "<2>bcd" ())).
  reflexivity.
Defined.

Lemma ParseStream_error_no_callback_witness :
  snd (ParseStream (probe NonTransparent) (probe OctetCounting)
         (mkReader " <1>a" ()) 10) = [].
Proof.
  apply (ParseStream_error_no_callback (probe NonTransparent)
           (probe OctetCounting) (mkReader " <1>a" ()) 10
           (Errorf "invalid or unsupported framing. first byte: ' '")).
  reflexivity.
Defined.

End syslogparser.

(** ** server.WriteError *)
Module server.

Definition StatusClientClosedRequest : Z := 499.

Definition ErrClientCanceled : string :=
  "The request was cancelled by the client.".
Definition ErrDeadlineExceeded : string :=
  "Request timed out, decrease the duration of the request or add more label matchers (prefer exact match over regex match) to reduce the amount of data processed.".

(** [codes.DeadlineExceeded] of google.golang.org/grpc/codes. *)
Definition codes_DeadlineExceeded : Z := 4.

(** What [WriteError] asks of a (non-nil) Go [error] and of the packages it
    imports.  The packages themselves are not part of the sources at hand,
    so their operations are the methods of this interface. *)
Class Errors (error : Type) := {
  MultiError : Type;
  (* err.Error() *)
  Error : error -> string;
  (* errors.Is(err, target); a nil [err] is never a non-nil target *)
  errors_Is : error -> error -> bool;
  context_Canceled : error;
  context_DeadlineExceeded : error;
  logqlmodel_ErrLimit : error;
  logqlmodel_ErrParse : error;
  logqlmodel_ErrPipeline : error;
  user_ErrNoOrgID : error;
  (* me, ok := err.(util.MultiError) *)
  as_MultiError : error -> option MultiError;
  (* me.Is(target) and me.IsDeadlineExceeded() *)
  MultiError_Is : MultiError -> error -> bool;
  MultiError_IsDeadlineExceeded : MultiError -> bool;
  (* s, isRPC := status.FromError(err), as (s.Code(), isRPC) *)
  status_FromError : error -> Z * bool;
  (* errors.As(err, &promErr), and then promErr.Err, which may be nil *)
  errors_As_ErrStorage : error -> option (option error);
  (* errors.As(err, &queryErr) *)
  errors_As_QueryError : error -> bool;
  (* httpgrpc.HTTPResponseFromError(err), as (Code, Body) *)
  HTTPResponseFromError : error -> option (Z * string);
}.

Section WriteError.
Context {error : Type} `{Errors error}.

(** [errors.Is(promErr.Err, target)] for a possibly nil [promErr.Err]. *)
Definition errors_Is_nilable (e : option error) (target : error) : bool :=
  match e with
  | Some e => errors_Is e target
  | None => false
  end.

Definition WriteError (err : error) (w : http.ResponseWriter)
  : http.ResponseWriter :=
  let me := as_MultiError err in
  if match me with Some me => MultiError_Is me context_Canceled | None => false end
  then http.call w (http.Error ErrClientCanceled StatusClientClosedRequest)
  else if match me with Some me => MultiError_IsDeadlineExceeded me | None => false end
  then http.call w (http.Error ErrDeadlineExceeded http.StatusGatewayTimeout)
  else
    let '(code, isRPC) := status_FromError err in
    if errors_Is err context_Canceled
       || match errors_As_ErrStorage err with
          | Some promErr_Err => errors_Is_nilable promErr_Err context_Canceled
          | None => false
          end
    then http.call w (http.Error ErrClientCanceled StatusClientClosedRequest)
    else if errors_Is err context_DeadlineExceeded
            || (isRPC && (code =? codes_DeadlineExceeded)%Z)
    then http.call w (http.Error ErrDeadlineExceeded http.StatusGatewayTimeout)
    else if errors_As_QueryError err
    then http.call w (http.Error (Error err) http.StatusBadRequest)
    else if errors_Is err logqlmodel_ErrLimit
            || errors_Is err logqlmodel_ErrParse
            || errors_Is err logqlmodel_ErrPipeline
    then http.call w (http.Error (Error err) http.StatusBadRequest)
    else if errors_Is err user_ErrNoOrgID
    then http.call w (http.Error (Error err) http.StatusBadRequest)
    else
      match HTTPResponseFromError err with
      | Some (grpc_Code, grpc_Body) =>
          http.call w (http.Error grpc_Body grpc_Code)
      | None =>
          http.call w (http.Error (Error err) http.StatusInternalServerError)
      end.

(** *** The mapping as a priority list of error classes *)

(** Client cancellation: [context.Canceled] directly, a [MultiError] of it,
    or wrapped in [promql.ErrStorage]. *)
Definition is_cancelled (err : error) : bool :=
  errors_Is err context_Canceled
  || match as_MultiError err with
     | Some me => MultiError_Is me context_Canceled
     | None => false
     end
  || match errors_As_ErrStorage err with
     | Some inner => errors_Is_nilable inner context_Canceled
     | None => false
     end.

(** Deadline exceeded: [context.DeadlineExceeded], a [MultiError] of it, or
    the gRPC code. *)
Definition is_deadline (err : error) : bool :=
  errors_Is err context_DeadlineExceeded
  || match as_MultiError err with
     | Some me => MultiError_IsDeadlineExceeded me
     | None => false
     end
  || (snd (status_FromError err)
      && (fst (status_FromError err) =? codes_DeadlineExceeded)%Z).

(** Errors answered with 400: a storage [QueryError], the logqlmodel limit,
    parse and pipeline errors, a missing org ID. *)
Definition is_bad_request (err : error) : bool :=
  errors_As_QueryError err
  || errors_Is err logqlmodel_ErrLimit
  || errors_Is err logqlmodel_ErrParse
  || errors_Is err logqlmodel_ErrPipeline
  || errors_Is err user_ErrNoOrgID.

(** The message and status the priority list assigns to an error. *)
Definition response_by_priority (err : error) : string * Z :=
  if is_cancelled err then (ErrClientCanceled, StatusClientClosedRequest)
  else if is_deadline err then (ErrDeadlineExceeded, http.StatusGatewayTimeout)
  else if is_bad_request err then (Error err, http.StatusBadRequest)
  else match HTTPResponseFromError err with
       | Some (code, body) => (body, code)
       | None => (Error err, http.StatusInternalServerError)
       end.

(** What Go's [errors] package gives for a value whose dynamic type is
    [util.MultiError]: the type has an [Is] method and no [Unwrap], so
    [errors.Is] is that method, and [errors.As] cannot find an
    [ErrStorage] in it. *)
Definition MultiError_opaque (err : error) : Prop :=
  forall me, as_MultiError err = Some me ->
    errors_Is err context_Canceled = MultiError_Is me context_Canceled
    /\ errors_As_ErrStorage err = None.


Lemma WriteError_unfold_response (err : error) (w : http.ResponseWriter) :
  MultiError_opaque err ->
  WriteError err w
  = let '(msg, code) := response_by_priority err in
    http.call w (http.Error msg code).
Proof.
  intros Hop. unfold WriteError, response_by_priority, is_cancelled,
    is_deadline, is_bad_request.
  destruct (as_MultiError err) as [me|] eqn:Hme.
  - destruct (Hop me Hme) as [-> ->].
    destruct (MultiError_Is me context_Canceled); [done|].
    destruct (MultiError_IsDeadlineExceeded me); simpl.
    + by rewrite orb_true_r.
    + destruct (status_FromError err) as [code isRPC]; simpl.
      rewrite !orb_false_r.
      repeat (match goal with
              | |- context [if ?b then _ else _] => destruct b; simpl; try done
              | |- context [match ?o with Some _ => _ | None => _ end] =>
                  destruct o as [[??]|]; simpl; try done
              end).
  - destruct (status_FromError err) as [code isRPC]; simpl.
    rewrite !orb_false_r.
    repeat (match goal with
            | |- context [if ?b then _ else _] => destruct b; simpl; try done
            | |- context [match ?o with Some _ => _ | None => _ end] =>
                destruct o as [[??]|]; simpl; try done
            end).
Qed.

(** C9. [WriteError] answers every error with one [http.Error] call whose
    message and status follow the priority list: cancellation (499, the
    client-cancelled message), then deadline exceeded (504), then the
    bad-request errors (400, the error's text), then an httpgrpc error
    (its code and body), and 500 with the error's text for the rest. *)
Theorem WriteError_priority (err : error) (w : http.ResponseWriter) :
  MultiError_opaque err ->
  WriteError err w
  = http.call w (http.Error (fst (response_by_priority err))
                            (snd (response_by_priority err))).
Proof.
  intros Hop. rewrite WriteError_unfold_response by done.
  by destruct (response_by_priority err).
Qed.

(** X4. Whatever the error, [WriteError] makes exactly one call on the writer,
    an [http.Error]; its status is 499, 504, 400 or 500 unless it is the
    code of the error's own httpgrpc response, sent with that response's
    body. *)
Theorem WriteError_one_call (err : error) (w : http.ResponseWriter) :
  exists msg code,
    WriteError err w = http.call w (http.Error msg code)
    /\ (code = 499 \/ code = 504 \/ code = 400 \/ code = 500
        \/ HTTPResponseFromError err = Some (code, msg))%Z.
Proof.
  unfold WriteError.
  destruct (match as_MultiError err with
            | Some me => MultiError_Is me context_Canceled | None => false end);
    [eauto 10|].
  destruct (match as_MultiError err with
            | Some me => MultiError_IsDeadlineExceeded me | None => false end);
    [eauto 10|].
  destruct (status_FromError err) as [code isRPC].
  repeat (match goal with
          | |- context [if ?b then _ else _] => destruct b; [by eauto 10|]
          end).
  destruct (HTTPResponseFromError err) as [[c b]|]; eauto 10.
Qed.

(** X5. The text of the error itself reaches the client only with status 400,
    500 or through an httpgrpc body: cancellations and timeouts are always
    answered with the two fixed messages. *)
Theorem WriteError_fixed_messages (err : error) (w : http.ResponseWriter)
    (msg : string) (code : Z) :
  WriteError err w = http.call w (http.Error msg code) ->
  HTTPResponseFromError err = None ->
  (code = 499%Z -> msg = ErrClientCanceled)
  /\ (code = 504%Z -> msg = ErrDeadlineExceeded)
  /\ (code = 400%Z \/ code = 500%Z -> msg = Error err).
Proof.
  unfold WriteError, http.call. intros Heq Hnone. rewrite Hnone in Heq.
  destruct (status_FromError err) as [c isRPC].
  repeat (match type of Heq with
          | context [if ?b then _ else _] => destruct b
          end);
    apply app_inv_head in Heq; injection Heq as <- <-;
    unfold StatusClientClosedRequest, http.StatusGatewayTimeout,
      http.StatusBadRequest, http.StatusInternalServerError;
    (split; [|split]); intros; try done; try lia.
Qed.

End WriteError.

(** *** An implementation of the interface

    The error values the imported packages build, with Go's [errors.Is] and
    [errors.As] walking the [Unwrap] chain. *)
Inductive goerr :=
| New (text : string)                  (* errors.New(text), a sentinel *)
| Wrap (msg : string) (inner : goerr)  (* fmt.Errorf(msg + ": %w", inner) *)
| Multi (es : list goerr)              (* util.MultiError(es) *)
| ErrStorage (inner : option goerr)    (* promql.ErrStorage{Err: inner} *)
| QueryError (msg : string)            (* storage_errors.QueryError(msg) *)
| StatusError (code : Z) (desc : string) (details : list (Z * string))
                                       (* a gRPC status; its details are
                                          httpgrpc responses (Code, Body) *).

(** [codes.Code.String()]. *)
Definition codes_String (code : Z) : string :=
  match code with
  | 0 => "OK" | 1 => "Canceled" | 2 => "Unknown" | 3 => "InvalidArgument"
  | 4 => "DeadlineExceeded" | 5 => "NotFound" | 6 => "AlreadyExists"
  | 7 => "PermissionDenied" | 8 => "ResourceExhausted"
  | 9 => "FailedPrecondition" | 10 => "Aborted" | 11 => "OutOfRange"
  | 12 => "Unimplemented" | 13 => "Internal" | 14 => "Unavailable"
  | 15 => "DataLoss" | 16 => "Unauthenticated"
  | _ => "Code(" +:+ pretty code +:+ ")"
  end%Z.

Fixpoint goerr_Error (e : goerr) : string :=
  match e with
  | New text => text
  | Wrap msg inner => msg +:+ ": " +:+ goerr_Error inner
  | Multi es =>
      (if (1 <? List.length es)%nat then pretty (List.length es) +:+ " errors: " else "")
      +:+ String.concat "; " (map goerr_Error es)
  | ErrStorage (Some inner) => goerr_Error inner
  | ErrStorage None => ""
  | QueryError msg => msg
  | StatusError code desc _ =>
      "rpc error: code = " +:+ codes_String code +:+ " desc = " +:+ desc
  end.

(** [err == target] on two error values of comparable type. *)
Definition goerr_same (e target : goerr) : bool :=
  match e, target with
  | New a, New b => String.eqb a b
  | QueryError a, QueryError b => String.eqb a b
  | _, _ => false
  end.

Fixpoint goerr_Is (e target : goerr) : bool :=
  goerr_same e target
  || match e with
     | Wrap _ inner => goerr_Is inner target
     | Multi es =>
         negb (List.length es =? 0)%nat && forallb (fun x => goerr_Is x target) es
     | _ => false
     end.

Fixpoint goerr_As_ErrStorage (e : goerr) : option (option goerr) :=
  match e with
  | ErrStorage inner => Some inner
  | Wrap _ inner => goerr_As_ErrStorage inner
  | _ => None
  end.

Fixpoint goerr_As_QueryError (e : goerr) : bool :=
  match e with
  | QueryError _ => true
  | Wrap _ inner => goerr_As_QueryError inner
  | _ => false
  end.

(** [codes.Unknown] is what [status.FromError] reports for an error that
    carries no gRPC status. *)
Definition goerr_FromError (e : goerr) : Z * bool :=
  match e with
  | StatusError code _ _ => (code, true)
  | _ => (2%Z, false)
  end.

Definition goerr_HTTPResponse (e : goerr) : option (Z * string) :=
  match e with
  | StatusError _ _ [resp] => Some resp
  | _ => None
  end.

Definition Canceled : goerr := New "context canceled".
Definition DeadlineExceeded : goerr := New "context deadline exceeded".

Definition goerr_Multi_IsDeadlineExceeded (es : list goerr) : bool :=
  negb (List.length es =? 0)%nat
  && forallb (fun e =>
                goerr_Is e DeadlineExceeded
                || (snd (goerr_FromError e)
                    && (fst (goerr_FromError e) =? codes_DeadlineExceeded)%Z))
             es.

#[export] Instance goerr_Errors : Errors goerr := {|
  MultiError := list goerr;
  Error := goerr_Error;
  errors_Is := goerr_Is;
  context_Canceled := Canceled;
  context_DeadlineExceeded := DeadlineExceeded;
  logqlmodel_ErrLimit := New "limit reached while evaluating the query";
  logqlmodel_ErrParse := New "failed to parse the log query";
  logqlmodel_ErrPipeline := New "failed execute pipeline";
  user_ErrNoOrgID := New "no org id";
  as_MultiError := fun e => match e with Multi es => Some es | _ => None end;
  MultiError_Is := fun es target =>
    negb (List.length es =? 0)%nat && forallb (fun x => goerr_Is x target) es;
  MultiError_IsDeadlineExceeded := goerr_Multi_IsDeadlineExceeded;
  status_FromError := goerr_FromError;
  errors_As_ErrStorage := goerr_As_ErrStorage;
  errors_As_QueryError := goerr_As_QueryError;
  HTTPResponseFromError := goerr_HTTPResponse;
|}.

Lemma goerr_MultiError_opaque (e : goerr) : MultiError_opaque e.
Proof.
  intros me Hme. destruct e; simpl in Hme; try discriminate.
  injection Hme as <-. split; reflexivity.
Qed.

Lemma WriteError_priority_witness :
  WriteError (Multi [Wrap "query" Canceled; Canceled]) []
  = [http.Error ErrClientCanceled 499]
  /\ WriteError (StatusError 4 "deadline" [(502%Z, "bad gateway")]) []
    = [http.Error ErrDeadlineExceeded 504]
  /\ WriteError (Wrap "select" (QueryError "invalid query")) []
    = [http.Error "select: invalid query" 400]
  /\ WriteError (StatusError 2 "upstream" [(429%Z, "too many requests")]) []
    = [http.Error "too many requests" 429]
  /\ WriteError (Multi [Canceled; DeadlineExceeded]) []
    = [http.Error "2 errors: context canceled; context deadline exceeded" 500].
Proof.
  split; [|split; [|split; [|split]]].
  - exact (WriteError_priority (Multi [Wrap "query" Canceled; Canceled]) []
             (goerr_MultiError_opaque _)).
  - exact (WriteError_priority
             (StatusError 4 "deadline" [(502%Z, "bad gateway")]) []
             (goerr_MultiError_opaque _)).
  - exact (WriteError_priority (Wrap "select" (QueryError "invalid query")) []
             (goerr_MultiError_opaque _)).
  - exact (WriteError_priority
             (StatusError 2 "upstream" [(429%Z, "too many requests")]) []
             (goerr_MultiError_opaque _)).
  - exact (WriteError_priority (Multi [Canceled; DeadlineExceeded]) []
             (goerr_MultiError_opaque _)).
Defined.

Lemma WriteError_fixed_messages_witness :
  (499%Z = 499%Z -> ErrClientCanceled = ErrClientCanceled)
  /\ (499%Z = 504%Z -> ErrClientCanceled = ErrDeadlineExceeded)
  /\ (499%Z = 400%Z \/ 499%Z = 500%Z
      -> ErrClientCanceled = Error (ErrStorage (Some Canceled))).
Proof.
  apply (WriteError_fixed_messages (ErrStorage (Some Canceled)) []
           ErrClientCanceled 499); reflexivity.
Defined.

End server.

(** ** memberlist.KVInitService *)
Module memberlist.

(** The Go values and library functions the file uses without defining
    them.  [GoValue] is what an [interface{}] holds when it is not nil. *)
Class Go := {
  GoValue : Type;
  error : Type;
  KVConfig : Type;        (* cfg with logger, DNS provider and registerer *)
  Memberlist : Type;      (* hashicorp memberlist.Memberlist *)
  Node : Type;            (* memberlist.Node *)
  Time : Type;            (* time.Time *)
  Error : error -> string;                                  (* err.Error() *)
  Node_Name : Node -> string;                               (* node.Name *)
  Members : Memberlist -> list Node;  (* Members(): a fresh slice *)
  strconv_Atoi : string -> Z + error;
  (* json.NewEncoder(w).Encode(val), after an optional SetIndent *)
  json_Encode : option (string * string) -> option GoValue -> string + error;
  (* fmt.Sprintf("%#v", val) *)
  fmt_GoSyntax : option GoValue -> string;
  (* sort.Slice(s, less), as the slice it leaves *)
  sort_Slice : list Node -> (Node -> Node -> bool) -> list Node;
}.

(** services.State of dskit; [Failed] carries the failure case. *)
Inductive ServiceState {G : Go} :=
| New | Starting | Running | Stopping | Terminated | Failed (cause : error).

Section Memberlist.
Context {G : Go}.

(** codec.Codec, by the two methods used here. *)
Record codec_Codec := {
  Decode : string -> option GoValue + error;
  Encode : option GoValue -> string + error;
}.

Record valueDesc := {
  value : option GoValue;
  version : N;
  codecID : string;
}.

Record KeyValuePair := {
  Key : string;
  Value : string;
  Codec : string;
}.

(** A logged gossip message, by the fields read here. *)
Record message := {
  ID : Z;
  Pair : KeyValuePair;
}.

(** The store object [*KV] points to, by the parts this file reaches. *)
Record KV := {
  codecs : gmap string codec_Codec;
  store : gmap string valueDesc;
  sentMessages : list message;
  receivedMessages : list message;
  memberlist : Memberlist;
  state : ServiceState;
}.

Record pageData := {
  Now : Time;
  pd_Memberlist : Memberlist;
  SortedMembers : list Node;
  Store : gmap string valueDesc;
  SentMessages : list message;
  ReceivedMessages : list message;
}.

(** The store's constructor and service methods, and the two renderers of
    the status page. *)
Class Runtime := {
  NewKV : KVConfig -> KV;
  (* kv.StartAsync(ctx): the store afterwards and the returned error *)
  StartAsync : KV -> KV * option error;
  (* how the store's shutdown ends once it is asked to stop: nil, or the
     failure of its stopping hook *)
  shutdown : KV -> option error;
  (* json.NewEncoder(w).Encode(v) for the page *)
  json_EncodePage : pageData -> string + error;
  (* defaultPageTemplate.Execute(w, v): the chunks written, then the error
     that interrupted it, if any *)
  template_Execute : pageData -> list string * option error;
}.
Context {R : Runtime}.

(** *** Accessors of the store

    These methods of [*KV] live in memberlist_client.go, outside the
    sources at hand. *)

(** Modelled from the spec: [GetCodec], missing from src; the registry's
    [lookup(codecID) -> Codec | absent]. *)
Definition GetCodec (kv : KV) (id : string) : option codec_Codec :=
  codecs kv !! id.

(** Modelled from the spec: [storeCopy], missing from src; [snapshot()]
    returns an independent copy of the mapping from key to descriptor. *)
Definition storeCopy (kv : KV) : gmap string valueDesc := store kv.

(** Modelled from the spec: [getSentAndReceivedMessages], missing from src;
    [listMessages() -> (sent, received)], read-only. *)
Definition getSentAndReceivedMessages (kv : KV) : list message * list message :=
  (sentMessages kv, receivedMessages kv).

(** Modelled from the spec: [deleteSentReceivedMessages], missing from src;
    the message log is cleared entirely and nothing else is touched. *)
Definition deleteSentReceivedMessages (kv : KV) : KV :=
  {| codecs := codecs kv; store := store kv;
     sentMessages := []; receivedMessages := [];
     memberlist := memberlist kv; state := state kv |}.

Definition with_state (kv : KV) (s : ServiceState) : KV :=
  {| codecs := codecs kv; store := store kv;
     sentMessages := sentMessages kv; receivedMessages := receivedMessages kv;
     memberlist := memberlist kv; state := s |}.

Definition terminal (s : ServiceState) : bool :=
  match s with
  | Terminated | Failed _ => true
  | _ => false
  end.

(** Modelled from the spec: [services.StopAndAwaitTerminated], missing from
    src; it requests the store to stop and waits for it to reach a terminal
    state, returning the failure when that state is [Failed]. *)
Definition StopAndAwaitTerminated (kv : KV) : KV * option error :=
  match state kv with
  | Terminated => (kv, None)
  | Failed cause => (kv, Some cause)
  | _ =>
      match shutdown kv with
      | None => (with_state kv Terminated, None)
      | Some cause => (with_state kv (Failed cause), Some cause)
      end
  end.

(** [store[key]]: the zero descriptor for a missing key. *)
Definition store_index (s : gmap string valueDesc) (key : string) : valueDesc :=
  default {| value := None; version := 0; codecID := "" |} (s !! key).

(** *** The debug page handlers *)

(** An [*http.Request], by what [ServeHTTP] reads: the result of
    [req.ParseForm()], the [Form] it leaves, and the headers. *)
Record Request := {
  ParseForm : option error;
  Form : gmap string (list string);
  Header : gmap string (list string);
}.

(** [req.Header.Get(key)] for a canonical key. *)
Definition Header_Get (h : gmap string (list string)) (key : string) : string :=
  match h !! key with
  | Some (v :: _) => v
  | _ => ""
  end.

Definition strings_Contains (s substr : string) : bool :=
  match String.index 0 substr s with
  | Some _ => true
  | None => false
  end.

Definition getFormat (req : Request) : string :=
  match Form req !! "format" with
  | Some (format :: _) => format
  | _ => ""
  end.

Definition formatValue (w : http.ResponseWriter) (val : option GoValue)
    (format : string) : http.ResponseWriter :=
  let w := http.call w (http.WriteHeader 200) in
  let w := http.call w (http.HeaderAdd "content-type" "text/plain") in
  if String.eqb format "json" || String.eqb format "json-pretty" then
    let indent :=
      if String.eqb format "json-pretty" then Some ("", "    ") else None in
    match json_Encode indent val with
    | inl b => http.call w (http.Write b)
    | inr err =>
        http.call w (http.Error (Error err) http.StatusInternalServerError)
    end
  else http.call w (http.Write (fmt_GoSyntax val)).

Definition viewMessage (w : http.ResponseWriter) (kv : KV) (msg : message)
    (format : string) : http.ResponseWriter :=
  match GetCodec kv (Codec (Pair msg)) with
  | None => http.call w (http.Error "codec not found" http.StatusNotFound)
  | Some c =>
      match Decode c (Value (Pair msg)) with
      | inr err =>
          http.call w (http.Error ("failed to decode: " +:+ Error err)
                                  http.StatusInternalServerError)
      | inl val => formatValue w val format
      end
  end.

Definition viewKey (w : http.ResponseWriter) (store : gmap string valueDesc)
    (key format : string) : http.ResponseWriter :=
  match value (store_index store key) with
  | None => http.call w (http.Error "value not found" http.StatusNotFound)
  | Some v => formatValue w (Some v) format
  end.

Definition downloadKey (w : http.ResponseWriter) (kv : KV)
    (store : gmap string valueDesc) (key : string) : http.ResponseWriter :=
  match value (store_index store key) with
  | None => http.call w (http.Error "value not found" http.StatusNotFound)
  | Some _ =>
      let val := store_index store key in
      match GetCodec kv (codecID (store_index store key)) with
      | None => http.call w (http.Error "codec not found" http.StatusNotFound)
      | Some c =>
          match Encode c (value val) with
          | inr err =>
              http.call w (http.Error ("failed to encode: " +:+ Error err)
                                      http.StatusInternalServerError)
          | inl encoded =>
              let w := http.call w
                (http.HeaderAdd "content-type" "application/octet-stream") in
              let w := http.call w
                (http.HeaderAdd "content-length"
                   (pretty (String.length encoded))) in
              let w := http.call w
                (http.HeaderAdd "content-disposition"
                   ("attachment; filename=" +:+ pretty (version val)
                    +:+ "-" +:+ key)) in
              let w := http.call w (http.WriteHeader 200) in
              http.call w (http.Write encoded)
          end
      end
  end.

(** The status page itself: the tail of [ServeHTTP], reached when no
    parameter asked for anything else. *)
Definition servePage (now : Time) (kv : KV) (w : http.ResponseWriter)
    (req : Request) : http.ResponseWriter :=
  let members := Members (memberlist kv) in
  let members :=
    sort_Slice members (fun a b => String.ltb (Node_Name a) (Node_Name b)) in
  let '(sent, received) := getSentAndReceivedMessages kv in
  let v := {| Now := now; pd_Memberlist := memberlist kv;
              SortedMembers := members; Store := storeCopy kv;
              SentMessages := sent; ReceivedMessages := received |} in
  let accept := Header_Get (Header req) "Accept" in
  if strings_Contains accept "application/json" then
    let w := http.call w (http.HeaderSet "Content-Type" "application/json") in
    match json_EncodePage v with
    | inl b => http.call w (http.Write b)
    | inr err =>
        http.call w (http.Error (Error err) http.StatusInternalServerError)
    end
  else
    let w := http.call w (http.HeaderSet "Content-Type" "text/html") in
    let '(chunks, failed) := template_Execute v in
    let w := w ++ map http.Write chunks in
    match failed with
    | Some err =>
        http.call w (http.Error (Error err) http.StatusInternalServerError)
    | None => w
    end.

(** [ServeHTTP] once [getKV] has returned the store.  The result is the
    store afterwards and the writer, or [None] when the handler panics
    (indexing an empty slice). *)
Definition serveKV (now : Time) (kv : KV) (w : http.ResponseWriter)
    (req : Request) : option (KV * http.ResponseWriter) :=
  let page := Some (kv, servePage now kv w req) in
  match ParseForm req with
  | Some _ => page
  | None =>
  match Form req !! "downloadKey" with
  | Some [] => None
  | Some (key :: _) => Some (kv, downloadKey w kv (storeCopy kv) key)
  | None =>
  match Form req !! "viewKey" with
  | Some [] => None
  | Some (key :: _) => Some (kv, viewKey w (storeCopy kv) key (getFormat req))
  | None =>
  match Form req !! "viewMsg" with
  | Some [] => None
  | Some (arg :: _) =>
      match strconv_Atoi arg with
      | inr err =>
          Some (kv, http.call w (http.Error (Error err) http.StatusBadRequest))
      | inl msgID =>
          let '(sent, received) := getSentAndReceivedMessages kv in
          match find (fun m => (ID m =? msgID)%Z) (sent ++ received) with
          | Some m => Some (kv, viewMessage w kv m (getFormat req))
          | None =>
              Some (kv, http.call w
                          (http.Error "message not found" http.StatusNotFound))
          end
      end
  | None =>
  match Form req !! "deleteMessages" with
  | Some (first :: _) =>
      if String.eqb first "true" then
        let kv := deleteSentReceivedMessages kv in
        let w := http.call w
          (http.HeaderSet "Location" ("?" +:+ "deleteMessages" +:+ "=false")) in
        Some (kv, http.call w (http.WriteHeader http.StatusFound))
      else page
  | _ => page
  end end end end end.

(** *** The wrapper *)

(** A [*KV]: the position of the store in the heap of allocated stores.
    A pointer the wrapper holds always refers to an allocated store (see
    [wf] below); where a definition has to say something for a pointer
    outside the heap, [ServeHTTP] gives the result of a panic and
    [stopping] and [init_StartAsync] leave the state as it is. *)
Definition ptr := nat.

Record KVInitService := {
  cfg : KVConfig;
  init_done : bool;          (* init sync.Once: its done flag *)
  kv : option ptr;           (* kv atomic.Value: nil until Store *)
  err : option error;
  watcher : list ptr;        (* the services the FailureWatcher watches *)
}.

(** The wrapper together with the stores allocated so far. *)
Record State := {
  svc : KVInitService;
  heap : list KV;
}.

Definition NewKVInitService (c : KVConfig) : KVInitService :=
  {| cfg := c; init_done := false; kv := None; err := None; watcher := [] |}.

(** Returns KV if it was initialized, or nil. *)
Definition getKV (kvs : KVInitService) : option ptr := kv kvs.

(** The statements of the function passed to [init.Do], one by one; [p] is
    the local [kv]. *)
Definition init_NewKV (st : State) : ptr * State :=
  (List.length (heap st),
   {| svc := svc st; heap := heap st ++ [NewKV (cfg (svc st))] |}).

Definition init_WatchService (p : ptr) (st : State) : State :=
  {| svc := {| cfg := cfg (svc st); init_done := init_done (svc st);
               kv := kv (svc st); err := err (svc st);
               watcher := watcher (svc st) ++ [p] |};
     heap := heap st |}.

Definition init_StartAsync (p : ptr) (st : State) : State :=
  match heap st !! p with
  | Some k =>
      let '(k', e) := StartAsync k in
      {| svc := {| cfg := cfg (svc st); init_done := init_done (svc st);
                   kv := kv (svc st); err := e;
                   watcher := watcher (svc st) |};
         heap := <[p := k']> (heap st) |}
  | None => st
  end.

Definition init_Store (p : ptr) (st : State) : State :=
  {| svc := {| cfg := cfg (svc st); init_done := init_done (svc st);
               kv := Some p; err := err (svc st);
               watcher := watcher (svc st) |};
     heap := heap st |}.

Definition init_body (st : State) : State :=
  let '(p, st) := init_NewKV st in
  let st := init_WatchService p st in
  let st := init_StartAsync p st in
  init_Store p st.

Definition set_done (st : State) : State :=
  {| svc := {| cfg := cfg (svc st); init_done := true;
               kv := kv (svc st); err := err (svc st);
               watcher := watcher (svc st) |};
     heap := heap st |}.

(** [once.Do(f)] called by one goroutine at a time. *)
Definition Once_Do (f : State -> State) (st : State) : State :=
  if init_done (svc st) then st else set_done (f st).

Definition GetMemberlistKV (st : State) : (option ptr * option error) * State :=
  let st := Once_Do init_body st in
  ((getKV (svc st), err (svc st)), st).

(** What [running] waits on, instant by instant: nothing yet, the context
    done, an error on the watcher's channel, or both at once. *)
Inductive Signal :=
| Quiet
| CtxDone
| WatcherFailed (e : error)
| BothReady (e : error).

(** [running] over the instants it waits through.  [pick_ctx] is the
    choice [select] makes when both cases are ready.  [None] means still
    blocked at the end of the trace. *)
Fixpoint running (pick_ctx : bool) (signals : list Signal)
  : option (option error) :=
  match signals with
  | [] => None
  | Quiet :: rest => running pick_ctx rest
  | CtxDone :: _ => Some None
  | WatcherFailed e :: _ => Some (Some e)
  | BothReady e :: _ => Some (if pick_ctx then None else Some e)
  end.

Definition stopping (st : State) : option error * State :=
  match getKV (svc st) with
  | None => (None, st)
  | Some p =>
      match heap st !! p with
      | Some k =>
          let '(k', e) := StopAndAwaitTerminated k in
          (e, {| svc := svc st; heap := <[p := k']> (heap st) |})
      | None => (None, st)
      end
  end.

Definition ServeHTTP (now : Time) (st : State) (w : http.ResponseWriter)
    (req : Request) : option (State * http.ResponseWriter) :=
  match getKV (svc st) with
  | None =>
      let w := http.call w (http.HeaderSet "Content-Type" "text/plain") in
      Some (st, http.call w (http.Write "This instance doesn't use memberlist."))
  | Some p =>
      match heap st !! p with
      | Some k =>
          match serveKV now k w req with
          | Some (k', w) =>
              Some ({| svc := svc st; heap := <[p := k']> (heap st) |}, w)
          | None => None
          end
      | None => None
      end
  end.

(** *** GetMemberlistKV from several goroutines

    Each goroutine runs [GetMemberlistKV] once.  Its program counter walks
    through [sync.Once.Do] (the fast-path load of [done], then [doSlow]:
    lock, second test, the function, the deferred [done.Store(1)] and
    [Unlock]) and the two reads of the return statement. *)
Inductive pc :=
| AtDo                      (* init.Do: atomic load of done *)
| WantLock                  (* doSlow: o.m.Lock() *)
| Locked                    (* doSlow: if o.done.Load() == 0 *)
| Init0                     (* kv := NewKV(...) *)
| Init1 (p : ptr)           (* kvs.watcher.WatchService(kv) *)
| Init2 (p : ptr)           (* kvs.err = kv.StartAsync(...) *)
| Init3 (p : ptr)           (* kvs.kv.Store(kv) *)
| SetDone                   (* deferred o.done.Store(1) *)
| Unlock                    (* deferred o.m.Unlock() *)
| AfterDo                   (* kvs.getKV() *)
| Loaded (k : option ptr)   (* reading kvs.err *)
| Returned (k : option ptr) (e : option error).

Record Conf := {
  shared : State;
  mutex : bool;             (* the Once's mutex is held *)
  threads : list pc;
}.

Definition goto (c : Conf) (i : nat) (st : State) (m : bool) (next : pc) : Conf :=
  {| shared := st; mutex := m; threads := <[i := next]> (threads c) |}.

(** One atomic step of goroutine [i]; [None] when it cannot move (it has
    returned, waits for the mutex, or does not exist). *)
Definition step (c : Conf) (i : nat) : option Conf :=
  let st := shared c in
  match threads c !! i with
  | None => None
  | Some AtDo =>
      Some (goto c i st (mutex c)
              (if init_done (svc st) then AfterDo else WantLock))
  | Some WantLock =>
      if mutex c then None else Some (goto c i st true Locked)
  | Some Locked =>
      Some (goto c i st (mutex c)
              (if init_done (svc st) then Unlock else Init0))
  | Some Init0 =>
      let '(p, st) := init_NewKV st in Some (goto c i st (mutex c) (Init1 p))
  | Some (Init1 p) =>
      Some (goto c i (init_WatchService p st) (mutex c) (Init2 p))
  | Some (Init2 p) =>
      Some (goto c i (init_StartAsync p st) (mutex c) (Init3 p))
  | Some (Init3 p) =>
      Some (goto c i (init_Store p st) (mutex c) SetDone)
  | Some SetDone => Some (goto c i (set_done st) (mutex c) Unlock)
  | Some Unlock => Some (goto c i st false AfterDo)
  | Some AfterDo => Some (goto c i st (mutex c) (Loaded (getKV (svc st))))
  | Some (Loaded k) => Some (goto c i st (mutex c) (Returned k (err (svc st))))
  | Some (Returned _ _) => None
  end.

(** A schedule names the goroutine to move at each instant; a goroutine
    that cannot move loses its turn. *)
Fixpoint run (schedule : list nat) (c : Conf) : Conf :=
  match schedule with
  | [] => c
  | i :: rest => run rest (default c (step c i))
  end.

(** [n] goroutines about to call [GetMemberlistKV] on a new wrapper. *)
Definition start (c : KVConfig) (h : list KV) (n : nat) : Conf :=
  {| shared := {| svc := NewKVInitService c; heap := h |};
     mutex := false;
     threads := replicate n AtDo |}.

(** [n] calls of [GetMemberlistKV] one after the other. *)
Fixpoint calls (n : nat) (st : State)
  : list (option ptr * option error) * State :=
  match n with
  | O => ([], st)
  | S n =>
      let '(r, st) := GetMemberlistKV st in
      let '(rs, st) := calls n st in
      (r :: rs, st)
  end.

(** *** Sequential calls of GetMemberlistKV *)


Lemma init_StartAsync_fresh (p : ptr) (st : State) (k : KV) :
  heap st !! p = Some k ->
  init_StartAsync p st
  = {| svc := {| cfg := cfg (svc st); init_done := init_done (svc st);
                 kv := kv (svc st); err := snd (StartAsync k);
                 watcher := watcher (svc st) |};
       heap := <[p := fst (StartAsync k)]> (heap st) |}.
Proof.
  intros Hk. unfold init_StartAsync. rewrite Hk. by destruct (StartAsync k).
Qed.

(** The initialisation function in closed form: one store is built from
    the configuration, watched, started and published. *)
Lemma init_body_spec (st : State) :
  init_body st
  = {| svc := {| cfg := cfg (svc st); init_done := init_done (svc st);
                 kv := Some (List.length (heap st));
                 err := snd (StartAsync (NewKV (cfg (svc st))));
                 watcher := watcher (svc st) ++ [List.length (heap st)] |};
       heap := heap st ++ [fst (StartAsync (NewKV (cfg (svc st))))] |}.
Proof.
  unfold init_body, init_NewKV, init_WatchService.
  erewrite init_StartAsync_fresh; simpl.
  2: { apply list_lookup_middle. done. }
  unfold init_Store; simpl. f_equal.
  rewrite <- (Nat.add_0_r (List.length (heap st))).
  by rewrite insert_app_r.
Qed.

(** The first call on a new wrapper, in closed form. *)
Lemma GetMemberlistKV_new (c : KVConfig) (h : list KV) :
  GetMemberlistKV {| svc := NewKVInitService c; heap := h |}
  = ((Some (List.length h), snd (StartAsync (NewKV c))),
     {| svc := {| cfg := c; init_done := true; kv := Some (List.length h);
                  err := snd (StartAsync (NewKV c));
                  watcher := [List.length h] |};
        heap := h ++ [fst (StartAsync (NewKV c))] |}).
Proof.
  unfold GetMemberlistKV, Once_Do. cbn [svc init_done NewKVInitService].
  rewrite init_body_spec. done.
Qed.

Lemma GetMemberlistKV_done (st : State) :
  init_done (svc st) = true ->
  GetMemberlistKV st = ((getKV (svc st), err (svc st)), st).
Proof. intros Hd. unfold GetMemberlistKV, Once_Do. by rewrite Hd. Qed.

Lemma GetMemberlistKV_sets_done (st : State) :
  init_done (svc (snd (GetMemberlistKV st))) = true.
Proof.
  unfold GetMemberlistKV, Once_Do; simpl.
  by destruct (init_done (svc st)) eqn:Hd.
Qed.

Lemma calls_done (n : nat) (st : State) :
  init_done (svc st) = true ->
  calls n st = (replicate n (getKV (svc st), err (svc st)), st).
Proof.
  intros Hd. induction n as [|n IH]; [done|].
  cbn [calls]. rewrite GetMemberlistKV_done, IH by done. done.
Qed.

(** C1. In any sequence of calls every call returns what the first one
    returned, store and error alike, and the state after the whole
    sequence is the state after the first call: nothing is initialised
    again, whether the first initialisation failed or not.  On a new
    wrapper the first call allocates exactly one store, returns it, and
    returns the error [StartAsync] gave. *)
Theorem GetMemberlistKV_init_once (c : KVConfig) (h : list KV) (st : State)
    (n : nat) :
  calls (S n) st
  = (replicate (S n) (fst (GetMemberlistKV st)), snd (GetMemberlistKV st))
  /\ let first := GetMemberlistKV {| svc := NewKVInitService c; heap := h |} in
     fst first = (Some (List.length h), snd (StartAsync (NewKV c)))
     /\ heap (snd first) = h ++ [fst (StartAsync (NewKV c))]
     /\ heap (snd (calls (S n) {| svc := NewKVInitService c; heap := h |}))
        = h ++ [fst (StartAsync (NewKV c))].
Proof.
  assert (forall st,
            calls (S n) st
            = (replicate (S n) (fst (GetMemberlistKV st)),
               snd (GetMemberlistKV st))) as Hcalls.
  { clear st. intros st. cbn [calls].
    destruct (GetMemberlistKV st) as [r st1] eqn:Hfirst.
    pose proof (GetMemberlistKV_sets_done st) as Hd. rewrite Hfirst in Hd.
    simpl in Hd. rewrite (calls_done n st1 Hd). simpl.
    assert (r = (getKV (svc st1), err (svc st1))) as ->; [|done].
    unfold GetMemberlistKV in Hfirst. by injection Hfirst as <- <-. }
  split; [apply Hcalls|]. rewrite Hcalls. by rewrite GetMemberlistKV_new.
Qed.

(** *** running and stopping *)

Definition quiet (signals : list Signal) : Prop := Forall (eq Quiet) signals.

Lemma running_skip_quiet (pick_ctx : bool) (before rest : list Signal) :
  quiet before -> running pick_ctx (before ++ rest) = running pick_ctx rest.
Proof. induction 1 as [|s before <- _ IH]; [done|]. simpl. exact IH. Qed.

(** C3. [running] stays blocked while neither event has happened.  At the
    first instant one of them has, it returns nil if that is the context
    being done and the watcher's error, as it is, if that is a failure
    report; when both are ready at once [select] picks one of the two. *)
Theorem running_returns (pick_ctx : bool) (before rest : list Signal)
    (e : error) :
  quiet before ->
  running pick_ctx before = None
  /\ running pick_ctx (before ++ CtxDone :: rest) = Some None
  /\ running pick_ctx (before ++ WatcherFailed e :: rest) = Some (Some e)
  /\ running pick_ctx (before ++ BothReady e :: rest)
     = Some (if pick_ctx then None else Some e).
Proof.
  intros Hq. rewrite !running_skip_quiet by done. simpl.
  split; [|done]. rewrite <- (app_nil_r before).
  by rewrite running_skip_quiet.
Qed.

(** X9. A result of [running] names its cause: nil only after the context was
    done, an error only if the watcher reported that very error, and in
    both cases nothing had happened before. *)
Theorem running_cause (pick_ctx : bool) (signals : list Signal)
    (r : option error) :
  running pick_ctx signals = Some r ->
  exists before s rest,
    signals = before ++ s :: rest /\ quiet before
    /\ match r with
       | None => s = CtxDone \/ exists e, s = BothReady e /\ pick_ctx = true
       | Some e => s = WatcherFailed e \/ (s = BothReady e /\ pick_ctx = false)
       end.
Proof.
  induction signals as [|s signals IH]; [done|].
  destruct s as [| |e|e]; simpl.
  - intros Hr. destruct (IH Hr) as (before & s & rest & -> & Hq & Hs).
    exists (Quiet :: before), s, rest. split; [done|].
    split; [by constructor|done].
  - intros [= <-]. exists [], CtxDone, signals. repeat split; [constructor|by left].
  - intros [= <-]. exists [], (WatcherFailed e), signals.
    repeat split; [constructor|by left].
  - intros [= <-]. exists [], (BothReady e), signals.
    split; [done|]. split; [constructor|].
    destruct pick_ctx; [right; eauto|by right].
Qed.

(** X10. [running] returns as soon as the trace holds an event, and only then. *)
Theorem running_blocks_iff_quiet (pick_ctx : bool) (signals : list Signal) :
  running pick_ctx signals = None <-> quiet signals.
Proof.
  split.
  - induction signals as [|s signals IH]; [constructor|].
    destruct s; simpl; try done. intros Hr. constructor; [done|by apply IH].
  - intros Hq. rewrite <- (app_nil_r signals). by rewrite running_skip_quiet.
Qed.

Lemma with_state_same (k : KV) : with_state k (state k) = k.
Proof. by destruct k. Qed.

(** The modelled [StopAndAwaitTerminated] leaves the store in a terminal
    state, returns that state's failure, and touches nothing else. *)
Lemma StopAndAwaitTerminated_terminal (k : KV) :
  let '(k', e) := StopAndAwaitTerminated k in
  terminal (state k') = true
  /\ k' = with_state k (state k')
  /\ e = match state k' with Failed cause => Some cause | _ => None end.
Proof.
  unfold StopAndAwaitTerminated.
  destruct (state k) eqn:Hs; try (destruct (shutdown k); simpl; done);
    simpl; rewrite Hs; repeat split; try done;
    by rewrite <- Hs, with_state_same.
Qed.

(** The two cases of [stopping]. *)
Lemma stopping_cases (st : State) :
  (getKV (svc st) = None -> stopping st = (None, st))
  /\ (forall p k, getKV (svc st) = Some p -> heap st !! p = Some k ->
      exists k',
        stopping st
        = (match state k' with Failed cause => Some cause | _ => None end,
           {| svc := svc st; heap := <[p := k']> (heap st) |})
        /\ terminal (state k') = true
        /\ k' = with_state k (state k')).
Proof.
  unfold stopping. split.
  - by intros ->.
  - intros p k -> Hk. rewrite Hk.
    pose proof (StopAndAwaitTerminated_terminal k) as Hstop.
    destruct (StopAndAwaitTerminated k) as [k' e].
    destruct Hstop as (Hterm & Hk' & ->). by exists k'.
Qed.


(** C4. [stopping] on a wrapper whose store was never initialised returns
    nil at once and changes nothing.  On an initialised one it stops the
    store the wrapper points to and returns only when that store is in a
    terminal state, with that state's failure if it failed; the wrapper's
    fields, the store's contents and all other stores stay as they were. *)
Theorem stopping_spec (st : State) :
  (getKV (svc st) = None -> stopping st = (None, st))
  /\ (forall p k, getKV (svc st) = Some p -> heap st !! p = Some k ->
      exists k',
        stopping st
        = (match state k' with Failed cause => Some cause | _ => None end,
           {| svc := svc st; heap := <[p := k']> (heap st) |})
        /\ terminal (state k') = true
        /\ k' = with_state k (state k')).
Proof. apply stopping_cases. Qed.

(** Stopping twice is stopping once: the second call finds the store
    terminal, leaves the state alone and returns the same result. *)
Theorem stopping_idempotent (st : State) :
  stopping (snd (stopping st)) = stopping st.
Proof.
  destruct (getKV (svc st)) as [p|] eqn:Hp.
  2: { destruct (stopping_cases st) as [Hnone _].
       rewrite (Hnone Hp). simpl. by rewrite (Hnone Hp). }
  destruct (heap st !! p) as [k|] eqn:Hk.
  2: { unfold stopping. rewrite Hp, Hk. simpl. by rewrite Hp, Hk. }
  destruct (stopping_cases st) as [_ Hsome].
  destruct (Hsome p k Hp Hk) as (k' & Hstop & Hterm & Hk').
  rewrite Hstop. simpl. unfold stopping at 1. simpl. rewrite Hp.
  rewrite list_lookup_insert_eq by (by eapply lookup_lt_Some).
  unfold StopAndAwaitTerminated.
  destruct (state k') eqn:Hs; try done; simpl;
    by rewrite list_insert_insert_eq.
Qed.

(** *** The debug page *)

(** The request that clears the message log: the form parsed, none of the
    parameters tested earlier is present, and the first value of
    [deleteMessages] is [true]. *)
Definition clears_messages (req : Request) : Prop :=
  ParseForm req = None
  /\ Form req !! "downloadKey" = None
  /\ Form req !! "viewKey" = None
  /\ Form req !! "viewMsg" = None
  /\ exists rest, Form req !! "deleteMessages" = Some ("true" :: rest).

Definition codec_not_found : http.Call :=
  http.Error "codec not found" http.StatusNotFound.

(** The message [viewMsg=arg] selects: the first one with that ID among the
    sent messages followed by the received ones. *)
Definition selected_message (kv : KV) (arg : string) : option message :=
  match strconv_Atoi arg with
  | inl msgID =>
      find (fun m => (ID m =? msgID)%Z) (sentMessages kv ++ receivedMessages kv)
  | inr _ => None
  end.

(** C5. When the codec a value or a message names is not registered, both
    handlers answer with the 404 [codec not found] and do nothing else; the
    request that reached them neither panics nor changes the store. *)
Theorem codec_absent_is_diagnosed (now : Time) (kv : KV)
    (w : http.ResponseWriter) (req : Request) :
  (forall msg format,
     GetCodec kv (Codec (Pair msg)) = None ->
     viewMessage w kv msg format = http.call w codec_not_found)
  /\ (forall key,
       value (store_index (store kv) key) <> None ->
       GetCodec kv (codecID (store_index (store kv) key)) = None ->
       downloadKey w kv (storeCopy kv) key = http.call w codec_not_found)
  /\ (forall key rest,
       ParseForm req = None ->
       Form req !! "downloadKey" = Some (key :: rest) ->
       value (store_index (store kv) key) <> None ->
       GetCodec kv (codecID (store_index (store kv) key)) = None ->
       serveKV now kv w req = Some (kv, http.call w codec_not_found))
  /\ (forall arg rest msg,
       ParseForm req = None ->
       Form req !! "downloadKey" = None ->
       Form req !! "viewKey" = None ->
       Form req !! "viewMsg" = Some (arg :: rest) ->
       selected_message kv arg = Some msg ->
       GetCodec kv (Codec (Pair msg)) = None ->
       serveKV now kv w req = Some (kv, http.call w codec_not_found)).
Proof.
  assert (forall key,
            value (store_index (store kv) key) <> None ->
            GetCodec kv (codecID (store_index (store kv) key)) = None ->
            downloadKey w kv (storeCopy kv) key = http.call w codec_not_found)
    as Hdl.
  { intros key Hv Hc. unfold downloadKey, storeCopy.
    destruct (value (store_index (store kv) key)); [|done]. by rewrite Hc. }
  assert (forall msg format,
            GetCodec kv (Codec (Pair msg)) = None ->
            viewMessage w kv msg format = http.call w codec_not_found) as Hvm.
  { intros msg format Hc. unfold viewMessage. by rewrite Hc. }
  repeat split; try done.
  - intros key rest Hpf Hd Hv Hc. unfold serveKV. rewrite Hpf, Hd.
    by rewrite Hdl.
  - intros arg rest msg Hpf Hd Hvk Hm Hsel Hc. unfold serveKV.
    rewrite Hpf, Hd, Hvk, Hm. unfold selected_message in Hsel.
    destruct (strconv_Atoi arg) as [msgID|]; [|done].
    unfold getSentAndReceivedMessages. rewrite Hsel. by rewrite Hvm.
Qed.

(** What [serveKV] does to the store, request by request. *)
Lemma serveKV_frame (now : Time) (kv kv' : KV) (w w' : http.ResponseWriter)
    (req : Request) :
  serveKV now kv w req = Some (kv', w') ->
  kv' = kv \/ (clears_messages req /\ kv' = deleteSentReceivedMessages kv).
Proof.
  unfold serveKV, clears_messages. intros Hs.
  destruct (ParseForm req); [left; congruence|].
  destruct (Form req !! "downloadKey") as [[|??]|]; [done|left; congruence|].
  destruct (Form req !! "viewKey") as [[|??]|]; [done|left; congruence|].
  destruct (Form req !! "viewMsg") as [[|arg ?]|]; [done| |].
  { left. destruct (strconv_Atoi arg); [|congruence].
    destruct (getSentAndReceivedMessages kv) as [sent received].
    destruct (find _ _); congruence. }
  destruct (Form req !! "deleteMessages") as [[|first rest]|];
    [left; congruence| |left; congruence].
  destruct (String.eqb_spec first "true") as [->|]; [|left; congruence].
  right. injection Hs as <- <-. repeat split; eauto.
Qed.

(** What [ServeHTTP] does to the state, request by request. *)
Lemma ServeHTTP_frame (now : Time) (st st' : State)
    (w w' : http.ResponseWriter) (req : Request) :
  ServeHTTP now st w req = Some (st', w') ->
  svc st' = svc st
  /\ List.length (heap st') = List.length (heap st)
  /\ forall q k, heap st !! q = Some k ->
       exists k', heap st' !! q = Some k'
         /\ store k' = store k /\ codecs k' = codecs k
         /\ memberlist k' = memberlist k /\ state k' = state k
         /\ (k' = k
             \/ (clears_messages req /\ getKV (svc st) = Some q
                 /\ sentMessages k' = [] /\ receivedMessages k' = [])).
Proof.
  unfold ServeHTTP. intros Hs.
  destruct (getKV (svc st)) as [p|] eqn:Hp.
  2: { injection Hs as <- <-. repeat split; try done. intros q k Hk.
       exists k. repeat split; try done. by left. }
  destruct (heap st !! p) as [kp|] eqn:Hkp; [|done].
  destruct (serveKV now kp w req) as [[kp' w1]|] eqn:Hserve; [|done].
  injection Hs as <- <-. simpl. split; [done|]. split; [apply length_insert|].
  intros q k Hk. destruct (decide (p = q)) as [->|Hne].
  - rewrite list_lookup_insert_eq by (by eapply lookup_lt_Some).
    assert (k = kp) as -> by congruence.
    exists kp'. split; [done|].
    destruct (serveKV_frame _ _ _ _ _ _ Hserve) as [->|[Hclr ->]].
    + repeat split; try done. by left.
    + repeat split; try done. right. done.
  - rewrite list_lookup_insert_ne by done. exists k.
    repeat split; try done. by left.
Qed.


(** C6. Whatever the request, [ServeHTTP] leaves the wrapper's fields and
    every store's key-value state, codecs, membership and service state as
    they were.  The message log of a store changes only when the request is
    the one that clears it and the store is the wrapper's; then both lists
    are emptied. *)
Theorem ServeHTTP_read_only (now : Time) (st st' : State)
    (w w' : http.ResponseWriter) (req : Request) :
  ServeHTTP now st w req = Some (st', w') ->
  svc st' = svc st
  /\ List.length (heap st') = List.length (heap st)
  /\ forall q k, heap st !! q = Some k ->
       exists k', heap st' !! q = Some k'
         /\ store k' = store k /\ codecs k' = codecs k
         /\ memberlist k' = memberlist k /\ state k' = state k
         /\ (k' = k
             \/ (clears_messages req /\ getKV (svc st) = Some q
                 /\ sentMessages k' = [] /\ receivedMessages k' = [])).
Proof. apply ServeHTTP_frame. Qed.


(** C8. [ServeHTTP] never initialises the store: whatever the request, the
    wrapper's fields (the init flag, the stored KV, the error) and the
    number of stores allocated are unchanged.  On a wrapper without a
    store the response is the plain-text notice, and the whole state is
    unchanged. *)
Theorem ServeHTTP_never_initialises (now : Time) (st : State)
    (w : http.ResponseWriter) (req : Request) :
  (getKV (svc st) = None ->
   ServeHTTP now st w req
   = Some (st, w ++ [http.HeaderSet "Content-Type" "text/plain";
                     http.Write "This instance doesn't use memberlist."]))
  /\ (forall st' w',
       ServeHTTP now st w req = Some (st', w') ->
       svc st' = svc st /\ List.length (heap st') = List.length (heap st)).
Proof.
  split.
  - intros Hnil. unfold ServeHTTP. rewrite Hnil. unfold http.call.
    by rewrite <- app_assoc.
  - intros st' w' Hs.
    destruct (ServeHTTP_frame _ _ _ _ _ _ Hs) as (? & ? & _). done.
Qed.

(** *** Concurrent calls of GetMemberlistKV *)

Section Concurrent.
Variable c0 : KVConfig.
Variable h0 : list KV.

(** The shared state as the one goroutine that runs the initialisation
    takes it from the new wrapper to the initialised one. *)
Definition st_new : State := {| svc := NewKVInitService c0; heap := h0 |}.
Definition st_alloc : State := snd (init_NewKV st_new).
Definition st_watch : State := init_WatchService (List.length h0) st_alloc.
Definition st_start : State := init_StartAsync (List.length h0) st_watch.
Definition st_store : State := init_Store (List.length h0) st_start.
Definition st_done : State := set_done st_store.

(** Where a goroutine can be for a given shared state. *)
Definition pc_ok (sh : State) (t : pc) : Prop :=
  match t with
  | AtDo | WantLock => True
  | Locked => sh = st_new \/ sh = st_done
  | Init0 => sh = st_new
  | Init1 p => p = List.length h0 /\ sh = st_alloc
  | Init2 p => p = List.length h0 /\ sh = st_watch
  | Init3 p => p = List.length h0 /\ sh = st_start
  | SetDone => sh = st_store
  | Unlock | AfterDo => sh = st_done
  | Loaded k => sh = st_done /\ k = getKV (svc st_done)
  | Returned k e =>
      sh = st_done /\ k = getKV (svc st_done) /\ e = err (svc st_done)
  end.

(** The goroutine is inside the Once's critical section. *)
Definition holds_mutex (t : pc) : bool :=
  match t with
  | Locked | Init0 | Init1 _ | Init2 _ | Init3 _ | SetDone | Unlock => true
  | _ => false
  end.

Definition mutex_ok (m : bool) (ts : list pc) : Prop :=
  if m then
    exists i t, ts !! i = Some t /\ holds_mutex t = true
      /\ forall j u, j <> i -> ts !! j = Some u -> holds_mutex u = false
  else forall j u, ts !! j = Some u -> holds_mutex u = false.

Record Inv (cf : Conf) : Prop := {
  inv_pc : forall j t, threads cf !! j = Some t -> pc_ok (shared cf) t;
  inv_done : init_done (svc (shared cf)) = true -> shared cf = st_done;
  inv_mutex : mutex_ok (mutex cf) (threads cf);
  inv_free : mutex cf = false -> shared cf = st_new \/ shared cf = st_done;
  inv_heap : List.length h0 <= List.length (heap (shared cf)) <= S (List.length h0);
}.

Lemma init_StartAsync_svc (p : ptr) (st : State) :
  init_done (svc (init_StartAsync p st)) = init_done (svc st)
  /\ List.length (heap (init_StartAsync p st)) = List.length (heap st).
Proof.
  unfold init_StartAsync. destruct (heap st !! p); [|done].
  destruct (StartAsync _). simpl. by rewrite length_insert.
Qed.

Lemma phases_not_done :
  init_done (svc st_new) = false /\ init_done (svc st_alloc) = false
  /\ init_done (svc st_watch) = false /\ init_done (svc st_start) = false
  /\ init_done (svc st_store) = false /\ init_done (svc st_done) = true.
Proof.
  unfold st_done, st_store, st_start. simpl.
  destruct (init_StartAsync_svc (List.length h0) st_watch) as [-> _]. done.
Qed.

Lemma phases_heap :
  List.length (heap st_new) = List.length h0
  /\ List.length (heap st_alloc) = S (List.length h0)
  /\ List.length (heap st_watch) = S (List.length h0)
  /\ List.length (heap st_start) = S (List.length h0)
  /\ List.length (heap st_store) = S (List.length h0)
  /\ List.length (heap st_done) = S (List.length h0).
Proof.
  unfold st_done, st_store, st_start. simpl.
  destruct (init_StartAsync_svc (List.length h0) st_watch) as [_ ->].
  simpl. rewrite length_app. simpl. lia.
Qed.

(** The state the initialisation ends in is the state one call leaves. *)
Lemma st_done_sequential : GetMemberlistKV st_new = ((getKV (svc st_done), err (svc st_done)), st_done).
Proof. reflexivity. Qed.

Lemma lookup_goto (ts : list pc) (i j : nat) (t u : pc) :
  <[i := t]> ts !! j = Some u ->
  (j = i /\ u = t) \/ (j <> i /\ ts !! j = Some u).
Proof.
  intros Hl. apply list_lookup_insert_Some in Hl.
  destruct Hl as [(-> & -> & _)|[Hne Hl]]; [by left|right]. split; [congruence|done].
Qed.

Lemma mutex_holder (m : bool) (ts : list pc) (i : nat) (t : pc) :
  mutex_ok m ts -> ts !! i = Some t -> holds_mutex t = true ->
  m = true /\ forall j u, j <> i -> ts !! j = Some u -> holds_mutex u = false.
Proof.
  intros Hm Hi Hh. destruct m; simpl in Hm.
  - destruct Hm as (i0 & t0 & Hi0 & Hh0 & Hoth). split; [done|].
    destruct (decide (i0 = i)) as [->|Hne]; [done|].
    rewrite (Hoth i t) in Hh; [done|congruence|done].
  - rewrite (Hm i t Hi) in Hh. done.
Qed.

Lemma mutex_ok_take (ts : list pc) (i : nat) (t t' : pc) :
  ts !! i = Some t -> holds_mutex t' = true ->
  (forall j u, j <> i -> ts !! j = Some u -> holds_mutex u = false) ->
  mutex_ok true (<[i := t']> ts).
Proof.
  intros Hi Hh Hoth. exists i, t'. split.
  - apply list_lookup_insert_eq. by eapply lookup_lt_Some.
  - split; [done|]. intros j u Hne Hj.
    rewrite list_lookup_insert_ne in Hj by congruence. eauto.
Qed.

Lemma mutex_ok_release (ts : list pc) (i : nat) (t' : pc) :
  holds_mutex t' = false ->
  (forall j u, j <> i -> ts !! j = Some u -> holds_mutex u = false) ->
  mutex_ok false (<[i := t']> ts).
Proof.
  intros Hh Hoth j u Hj.
  destruct (lookup_goto _ _ _ _ _ Hj) as [[_ ->]|[Hne Hj']]; eauto.
Qed.

Lemma mutex_ok_outside (m : bool) (ts : list pc) (i : nat) (t t' : pc) :
  mutex_ok m ts -> ts !! i = Some t ->
  holds_mutex t = false -> holds_mutex t' = false ->
  mutex_ok m (<[i := t']> ts).
Proof.
  intros Hm Hi Hh Hh'. destruct m; simpl in *.
  - destruct Hm as (i0 & t0 & Hi0 & Hh0 & Hoth).
    assert (i0 <> i) as Hne by (intros ->; congruence).
    exists i0, t0. split; [by rewrite list_lookup_insert_ne|].
    split; [done|]. intros j u Hj0 Hj.
    destruct (lookup_goto _ _ _ _ _ Hj) as [[_ ->]|[_ Hj']]; eauto.
  - intros j u Hj.
    destruct (lookup_goto _ _ _ _ _ Hj) as [[_ ->]|[_ Hj']]; eauto.
Qed.

Definition phase (st : State) : Prop :=
  st = st_new \/ st = st_alloc \/ st = st_watch \/ st = st_start
  \/ st = st_store \/ st = st_done.

Lemma phase_facts (st : State) :
  phase st ->
  (init_done (svc st) = true -> st = st_done)
  /\ List.length h0 <= List.length (heap st) <= S (List.length h0).
Proof.
  destruct phases_not_done as (N0 & N1 & N2 & N3 & N4 & _).
  destruct phases_heap as (L0 & L1 & L2 & L3 & L4 & L5).
  intros [->|[->|[->|[->|[->| ->]]]]]; (split; [congruence || done|lia]).
Qed.

(** A goroutine outside the critical section moves without touching the
    shared state or the mutex. *)
Lemma Inv_outside (cf : Conf) (i : nat) (t t' : pc) :
  Inv cf -> threads cf !! i = Some t ->
  holds_mutex t = false -> holds_mutex t' = false ->
  pc_ok (shared cf) t' ->
  Inv (goto cf i (shared cf) (mutex cf) t').
Proof.
  intros [Hpc Hdone Hmx Hfree Hheap] Hi Hh Hh' Hok. split; simpl; try done.
  - intros j u Hj.
    destruct (lookup_goto _ _ _ _ _ Hj) as [[_ ->]|[_ Hj']]; eauto.
  - by eapply mutex_ok_outside.
Qed.

(** The goroutine inside the critical section moves, possibly changing
    the shared state; the others are still waiting or were already past
    the Once. *)
Lemma Inv_inside (cf : Conf) (i : nat) (t t' : pc) (st' : State) :
  Inv cf -> threads cf !! i = Some t ->
  holds_mutex t = true -> holds_mutex t' = true ->
  pc_ok st' t' -> phase st' ->
  (st' = shared cf \/ init_done (svc (shared cf)) = false) ->
  Inv (goto cf i st' (mutex cf) t').
Proof.
  intros [Hpc Hdone Hmx Hfree Hheap] Hi Hh Hh' Hok Hph Hchg.
  destruct (mutex_holder _ _ _ _ Hmx Hi Hh) as [Hm Hoth].
  destruct (phase_facts _ Hph) as [Hd' Hl'].
  split; simpl; try done.
  - intros j u Hj.
    destruct (lookup_goto _ _ _ _ _ Hj) as [[_ ->]|[Hne Hj']]; [done|].
    destruct Hchg as [->|Hnd]; [eauto|].
    pose proof (Hpc j u Hj') as Hu. pose proof (Hoth j u Hne Hj') as Hhu.
    destruct phases_not_done as (_ & _ & _ & _ & _ & Hfin).
    destruct u; simpl in Hu, Hhu |- *; try done;
      [|destruct Hu as [Hu _]|destruct Hu as [Hu _]];
      rewrite Hu in Hnd; congruence.
  - rewrite Hm. by eapply mutex_ok_take.
  - rewrite Hm. done.
Qed.

Lemma step_Inv (cf cf' : Conf) (i : nat) :
  Inv cf -> step cf i = Some cf' -> Inv cf'.
Proof.
  intros HI Hstep. unfold step in Hstep.
  destruct (threads cf !! i) as [t|] eqn:Hi; [|done].
  pose proof (inv_pc _ HI i t Hi) as Hok.
  destruct phases_not_done as (N0 & N1 & N2 & N3 & N4 & N5).
  destruct t; simpl in Hok.
  - (* AtDo *)
    injection Hstep as <-. eapply Inv_outside; eauto.
    + by destruct (init_done (svc (shared cf))).
    + destruct (init_done (svc (shared cf))) eqn:Hd; [|done]. by apply (inv_done _ HI).
  - (* WantLock *)
    destruct (mutex cf) eqn:Hm; [done|]. injection Hstep as <-.
    destruct HI as [Hpc Hdone Hmx Hfree Hheap]. rewrite Hm in Hmx.
    split; simpl; try done.
    + intros j u Hj.
      destruct (lookup_goto _ _ _ _ _ Hj) as [[_ ->]|[_ Hj']]; eauto.
      simpl. by apply Hfree.
    + eapply mutex_ok_take; eauto.
  - (* Locked *)
    injection Hstep as <-. eapply Inv_inside; eauto.
    + by destruct (init_done (svc (shared cf))).
    + destruct Hok as [-> | ->]; [rewrite N0|rewrite N5]; done.
    + unfold phase. destruct Hok as [-> | ->]; auto 10.
  - (* Init0 *)
    destruct (init_NewKV (shared cf)) as [p st'] eqn:Hnew.
    injection Hstep as <-. rewrite Hok in Hnew.
    assert (p = List.length h0 /\ st' = st_alloc) as [-> ->].
    { unfold st_alloc. rewrite Hnew. by injection Hnew as <- _. }
    eapply Inv_inside; eauto; [done|unfold phase; auto 10|].
    right. by rewrite Hok.
  - (* Init1 *)
    destruct Hok as [-> Hsh]. injection Hstep as <-. rewrite Hsh.
    eapply Inv_inside; eauto; [done|unfold phase; auto 10|].
    right. by rewrite Hsh.
  - (* Init2 *)
    destruct Hok as [-> Hsh]. injection Hstep as <-. rewrite Hsh.
    eapply Inv_inside; eauto; [done|unfold phase; auto 10|].
    right. by rewrite Hsh.
  - (* Init3 *)
    destruct Hok as [-> Hsh]. injection Hstep as <-. rewrite Hsh.
    eapply Inv_inside; eauto; [done|unfold phase; auto 10|].
    right. by rewrite Hsh.
  - (* SetDone *)
    injection Hstep as <-. rewrite Hok.
    eapply Inv_inside; eauto; [done|unfold phase; auto 10|].
    right. by rewrite Hok.
  - (* Unlock *)
    injection Hstep as <-.
    destruct HI as [Hpc Hdone Hmx Hfree Hheap].
    destruct (mutex_holder _ _ _ _ Hmx Hi eq_refl) as [Hm Hoth].
    split; simpl; try done.
    + intros j u Hj.
      destruct (lookup_goto _ _ _ _ _ Hj) as [[_ ->]|[_ Hj']]; eauto.
    + by eapply mutex_ok_release.
    + by right.
  - (* AfterDo *)
    injection Hstep as <-. eapply Inv_outside; eauto. simpl. by rewrite Hok.
  - (* Loaded *)
    destruct Hok as [Hsh ->]. injection Hstep as <-.
    eapply Inv_outside; eauto. simpl. by rewrite Hsh.
  - done.
Qed.

Lemma start_Inv (n : nat) : Inv (start c0 h0 n).
Proof.
  split; simpl; try done.
  - intros j t Hj. apply lookup_replicate in Hj as [-> _]. done.
  - intros j t Hj. apply lookup_replicate in Hj as [-> _]. done.
  - by left.
  - lia.
Qed.

Lemma run_Inv (schedule : list nat) (cf : Conf) : Inv cf -> Inv (run schedule cf).
Proof.
  revert cf. induction schedule as [|i rest IH]; [done|].
  intros cf HI. simpl. apply IH.
  destruct (step cf i) as [cf'|] eqn:Hs; [by eapply step_Inv|done].
Qed.

(** A goroutine that moves whatever the others do. *)
Definition moves_freely (t : pc) : bool :=
  match t with
  | WantLock | Returned _ _ => false
  | _ => true
  end.

Definition waits_for_mutex (t : pc) : bool :=
  match t with
  | WantLock => true
  | _ => false
  end.

Lemma step_moves_freely (cf : Conf) (i : nat) (t : pc) :
  threads cf !! i = Some t -> moves_freely t = true -> is_Some (step cf i).
Proof.
  intros Hi Hm. unfold step. rewrite Hi.
  destruct t; done || by eexists.
Qed.

Lemma Inv_progress (cf : Conf) :
  Inv cf ->
  (forall i t, threads cf !! i = Some t -> exists k e, t = Returned k e)
  \/ exists i, is_Some (step cf i).
Proof.
  intros HI.
  destruct (decide (Exists (fun t => moves_freely t = true) (threads cf)))
    as [Hex|Hno].
  { right. apply Exists_exists in Hex as (t & Hin & Hm).
    apply list_elem_of_lookup in Hin as [i Hi]. exists i.
    by eapply step_moves_freely. }
  assert (forall i t, threads cf !! i = Some t -> moves_freely t = false) as Hall.
  { intros i t Hi. destruct (moves_freely t) eqn:Hm; [|done].
    destruct Hno. apply Exists_exists. exists t. split; [|done].
    apply list_elem_of_lookup. eauto. }
  destruct (decide (Exists (fun t => waits_for_mutex t = true) (threads cf)))
    as [Hw|Hnw].
  - right. apply Exists_exists in Hw as (t & Hin & Ht).
    apply list_elem_of_lookup in Hin as [i Hi]. exists i.
    destruct t; try done. unfold step. rewrite Hi.
    destruct (mutex cf) eqn:Hm; [|by eexists].
    pose proof (inv_mutex _ HI) as Hmx. rewrite Hm in Hmx.
    destruct Hmx as (i0 & t0 & Hi0 & Hh0 & _).
    pose proof (Hall i0 t0 Hi0). by destruct t0.
  - left. intros i t Hi. pose proof (Hall i t Hi) as Hm.
    destruct t; try done; [|eauto].
    destruct Hnw. apply Exists_exists. exists WantLock. split; [|done].
    apply list_elem_of_lookup. eauto.
Qed.

(** How many steps a goroutine at [t] has left at most. *)
Definition steps_left (t : pc) : nat :=
  match t with
  | AtDo => 11 | WantLock => 10 | Locked => 9 | Init0 => 8 | Init1 _ => 7
  | Init2 _ => 6 | Init3 _ => 5 | SetDone => 4 | Unlock => 3 | AfterDo => 2
  | Loaded _ => 1 | Returned _ _ => 0
  end.

Definition work_left (cf : Conf) : nat := sum_list (steps_left <$> threads cf).

Lemma work_left_insert (ts : list pc) (i : nat) (t t' : pc) :
  ts !! i = Some t -> steps_left t' < steps_left t ->
  sum_list (steps_left <$> <[i := t']> ts) < sum_list (steps_left <$> ts).
Proof.
  revert i. induction ts as [|u ts IH]; intros [|i] Hi Hlt; try done.
  - injection Hi as ->. csimpl. lia.
  - csimpl in *. specialize (IH i Hi Hlt). lia.
Qed.

Lemma step_work_left (cf cf' : Conf) (i : nat) :
  step cf i = Some cf' -> work_left cf' < work_left cf.
Proof.
  unfold step, work_left. destruct (threads cf !! i) as [t|] eqn:Hi; [|done].
  intros Hs.
  assert (exists t', threads cf' = <[i := t']> (threads cf)
                     /\ steps_left t' < steps_left t) as (t' & -> & Hlt).
  { destruct t; try done;
      try (destruct (mutex cf); [done|]);
      try (injection Hs as <-; eexists; split; [done|];
           try destruct (init_done _); simpl; lia). }
  by eapply work_left_insert.
Qed.

Lemma run_app (s1 s2 : list nat) (cf : Conf) :
  run (s1 ++ s2) cf = run s2 (run s1 cf).
Proof. revert cf. induction s1 as [|i s1 IH]; [done|]. intros cf. apply IH. Qed.

Definition all_returned (cf : Conf) : Prop :=
  forall i t, threads cf !! i = Some t -> exists k e, t = Returned k e.

Lemma Inv_completes (k : nat) (cf : Conf) :
  Inv cf -> work_left cf <= k ->
  exists more, all_returned (run more cf).
Proof.
  revert cf. induction k as [|k IH]; intros cf HI Hk.
  - destruct (Inv_progress cf HI) as [Hall|[i [cf' Hs]]]; [by exists []|].
    apply step_work_left in Hs. lia.
  - destruct (Inv_progress cf HI) as [Hall|[i [cf' Hs]]]; [by exists []|].
    destruct (IH cf') as [more Hmore].
    + by eapply step_Inv.
    + apply step_work_left in Hs. lia.
    + exists (i :: more). simpl. by rewrite Hs.
Qed.

Lemma step_threads_length (cf cf' : Conf) (i : nat) :
  step cf i = Some cf' -> List.length (threads cf') = List.length (threads cf).
Proof.
  unfold step. destruct (threads cf !! i) as [t|]; [|done]. intros Hs.
  destruct t; try done; try (destruct (mutex cf); [done|]);
    injection Hs as <-; apply length_insert.
Qed.

Lemma run_threads_length (schedule : list nat) (cf : Conf) :
  List.length (threads (run schedule cf)) = List.length (threads cf).
Proof.
  revert cf. induction schedule as [|i rest IH]; [done|]. intros cf. simpl.
  rewrite IH. destruct (step cf i) eqn:Hs; [|done].
  by eapply step_threads_length.
Qed.

End Concurrent.

(** C2. However [n] concurrent calls of [GetMemberlistKV] on a new wrapper
    are interleaved, at most one store is ever allocated, and a call that
    has returned has returned what a single call would have: the one store
    built and started by the initialisation, with the error [StartAsync]
    gave it.  From every point of every interleaving the calls can all be
    completed, and then each of the [n] callers holds that same store and
    that same error. *)
Theorem GetMemberlistKV_concurrent (c : KVConfig) (h : list KV) (n : nat)
    (schedule : list nat) :
  let cf := run schedule (start c h n) in
  let once := GetMemberlistKV {| svc := NewKVInitService c; heap := h |} in
  List.length (heap (shared cf)) <= S (List.length h)
  /\ (forall i k e, threads cf !! i = Some (Returned k e) ->
       (k, e) = fst once
       /\ shared cf = snd once
       /\ k = Some (List.length h)
       /\ e = snd (StartAsync (NewKV c))
       /\ heap (shared cf) = h ++ [fst (StartAsync (NewKV c))])
  /\ exists more,
       threads (run (schedule ++ more) (start c h n))
       = replicate n (Returned (Some (List.length h))
                               (snd (StartAsync (NewKV c)))).
Proof.
  intros cf once.
  pose proof (run_Inv c h schedule _ (start_Inv c h n)) as HI.
  pose proof (st_done_sequential c h) as Hseq. unfold st_new in Hseq.
  rewrite GetMemberlistKV_new in Hseq.
  pose proof (f_equal snd Hseq) as Hst. clear Hseq.
  simpl in Hst. split; [apply (inv_heap _ _ _ HI)|]. split.
  - intros i k e Hi. pose proof (inv_pc _ _ _ HI i _ Hi) as (Hsh & -> & ->).
    fold cf in Hsh. rewrite Hsh. subst once.
    rewrite GetMemberlistKV_new, <- Hst. done.
  - destruct (Inv_completes c h _ _ HI (le_n _)) as [more Hmore].
    exists more. rewrite run_app. fold cf.
    symmetry. apply replicate_as_Forall. split.
    + rewrite run_threads_length. unfold cf.
      rewrite run_threads_length. apply length_replicate.
    + apply Forall_lookup. intros i t Hi.
      destruct (Hmore i t Hi) as (k & e & ->).
      pose proof (run_Inv c h more _ HI) as HI'.
      pose proof (inv_pc _ _ _ HI' i _ Hi) as (_ & -> & ->).
      by rewrite <- Hst.
Qed.

(** X7. Concurrent calls never deadlock: in every configuration the calls can
    reach, either every call has returned or some goroutine can move. *)
Theorem GetMemberlistKV_no_deadlock (c : KVConfig) (h : list KV) (n : nat)
    (schedule : list nat) :
  let cf := run schedule (start c h n) in
  (forall i t, threads cf !! i = Some t -> exists k e, t = Returned k e)
  \/ exists i, is_Some (step cf i).
Proof.
  intros cf. eapply Inv_progress. apply run_Inv, start_Inv.
Qed.

(** A step of goroutine [i] reads and writes the shared state, the mutex
    and its own program counter only. *)
Definition focus (ts : list pc) (i : nat) (alone : Conf) : Conf :=
  {| shared := shared alone; mutex := mutex alone;
     threads := match threads alone with
                | t :: _ => <[i := t]> ts
                | [] => ts
                end |}.

Lemma step_local (st : State) (m : bool) (ts : list pc) (i : nat) (t : pc) :
  ts !! i = Some t ->
  step {| shared := st; mutex := m; threads := ts |} i
  = focus ts i <$> step {| shared := st; mutex := m; threads := [t] |} 0.
Proof.
  intros Hi. unfold step. cbn [threads shared mutex]. rewrite Hi.
  change ([t] !! 0) with (Some t).
  destruct t; try done; destruct m; done.
Qed.

Lemma run_local (k : nat) (st : State) (m : bool) (ts : list pc) (i : nat)
    (t : pc) :
  ts !! i = Some t ->
  run (replicate k i) {| shared := st; mutex := m; threads := ts |}
  = focus ts i
      (run (replicate k 0) {| shared := st; mutex := m; threads := [t] |}).
Proof.
  revert st m ts t. induction k as [|k IH]; intros st m ts t Hi.
  - unfold focus. simpl. by rewrite list_insert_id.
  - cbn [replicate run]. rewrite (step_local st m ts i t Hi).
    destruct (step {| shared := st; mutex := m; threads := [t] |} 0)
      as [[st1 m1 ts1]|] eqn:Hs; cbn [fmap option_fmap option_map default].
    + pose proof (step_threads_length _ _ _ Hs) as Hlen. simpl in Hlen.
      destruct ts1 as [|t1 [|??]]; try done. unfold id.
      change (focus ts i {| shared := st1; mutex := m1; threads := [t1] |})
        with {| shared := st1; mutex := m1; threads := <[i := t1]> ts |}.
      rewrite (IH st1 m1 (<[i := t1]> ts) t1).
      * unfold focus. cbn [threads shared mutex].
        pose proof (run_threads_length (replicate k 0)
                      {| shared := st1; mutex := m1; threads := [t1] |}) as Hl.
        destruct (threads _); [done|by rewrite list_insert_insert_eq].
      * apply list_lookup_insert_eq. by eapply lookup_lt_Some.
    + by apply IH.
Qed.

(** X8. A goroutine that runs alone, whichever of the [n] it is, takes
    eleven steps through the Once and ends exactly where the sequential
    [GetMemberlistKV] does: same result, same state, mutex released, the
    others still about to call. *)
Theorem one_goroutine_is_sequential (c : KVConfig) (h : list KV) (n i : nat) :
  i < n ->
  let once := GetMemberlistKV {| svc := NewKVInitService c; heap := h |} in
  run (replicate 11 i) (start c h n)
  = {| shared := snd once; mutex := false;
       threads := <[i := Returned (fst (fst once)) (snd (fst once))]>
                    (replicate n AtDo) |}.
Proof.
  intros Hi once. unfold start.
  rewrite (run_local 11 _ _ _ i AtDo) by (by apply lookup_replicate_2).
  reflexivity.
Qed.

(** X6. After the first call on a new wrapper the returned pointer refers to
    the store as [StartAsync] left it, the failure watcher watches that
    store and no other, and the Once is done. *)
Theorem GetMemberlistKV_publishes_started_store (c : KVConfig) (h : list KV) :
  let first := GetMemberlistKV {| svc := NewKVInitService c; heap := h |} in
  exists p,
    fst (fst first) = Some p
    /\ heap (snd first) !! p = Some (fst (StartAsync (NewKV c)))
    /\ watcher (svc (snd first)) = [p]
    /\ init_done (svc (snd first)) = true
    /\ forall q k, h !! q = Some k -> heap (snd first) !! q = Some k.
Proof.
  rewrite GetMemberlistKV_new. exists (List.length h). simpl.
  repeat split; try done.
  - by apply list_lookup_middle.
  - intros q k Hq. by apply lookup_app_l_Some.
Qed.

Lemma insert_last (h : list KV) (k k' : KV) :
  <[List.length h := k']> (h ++ [k]) = h ++ [k'].
Proof.
  rewrite <- (Nat.add_0_r (List.length h)). by rewrite insert_app_r.
Qed.

(** X16. The first call publishes the store whatever [StartAsync] returned,
    also an error.  From then on [ServeHTTP] serves from that store instead
    of answering that memberlist is not in use, and [stopping] stops that
    store. *)
Theorem first_call_publishes_even_on_failure (c : KVConfig) (h : list KV)
    (now : Time) (w : http.ResponseWriter) (req : Request) :
  let st1 := snd (GetMemberlistKV {| svc := NewKVInitService c; heap := h |}) in
  let started := fst (StartAsync (NewKV c)) in
  ServeHTTP now st1 w req
  = (fun r => ({| svc := svc st1; heap := h ++ [fst r] |}, snd r))
      <$> serveKV now started w req
  /\ stopping st1
     = (snd (StopAndAwaitTerminated started),
        {| svc := svc st1;
           heap := h ++ [fst (StopAndAwaitTerminated started)] |}).
Proof.
  rewrite GetMemberlistKV_new. cbn [snd]. split.
  - unfold ServeHTTP. cbn [svc heap getKV kv].
    rewrite list_lookup_middle by done.
    destruct (serveKV now _ w req) as [[k' w']|]; [|done].
    simpl. by rewrite insert_last.
  - unfold stopping. cbn [svc heap getKV kv].
    rewrite list_lookup_middle by done.
    destruct (StopAndAwaitTerminated _) as [k' e]. simpl.
    by rewrite insert_last.
Qed.

(** [w'] is [w] with at least one more call. *)
Definition extends (w w' : http.ResponseWriter) : Prop :=
  exists calls, w' = w ++ calls /\ calls <> [].

Lemma extends_call (w : http.ResponseWriter) (c : http.Call) :
  extends w (http.call w c).
Proof. by exists [c]. Qed.

Lemma extends_more (w w' : http.ResponseWriter) (l : list http.Call) :
  extends w w' -> extends w (w' ++ l).
Proof.
  intros (calls & -> & Hne). exists (calls ++ l). rewrite app_assoc.
  split; [done|]. by destruct calls.
Qed.

Ltac extends_calls :=
  first [ apply extends_call | apply extends_more; extends_calls ].

Lemma formatValue_extends (w : http.ResponseWriter) (val : option GoValue)
    (format : string) :
  extends w (formatValue w val format).
Proof.
  unfold formatValue.
  destruct (String.eqb format "json" || String.eqb format "json-pretty");
    [destruct (json_Encode _ val)|];
    extends_calls.
Qed.

Lemma servePage_extends (now : Time) (k : KV) (w : http.ResponseWriter)
    (req : Request) :
  extends w (servePage now k w req).
Proof.
  unfold servePage, getSentAndReceivedMessages.
  destruct (strings_Contains _ _).
  - destruct (json_EncodePage _); extends_calls.
  - destruct (template_Execute _) as [chunks [e|]];
      extends_calls.
Qed.

Lemma serveKV_extends (now : Time) (k k' : KV) (w w' : http.ResponseWriter)
    (req : Request) :
  serveKV now k w req = Some (k', w') -> extends w w'.
Proof.
  unfold serveKV. intros Hs.
  destruct (ParseForm req).
  { injection Hs as _ <-. apply servePage_extends. }
  destruct (Form req !! "downloadKey") as [[|key ?]|]; [done| |].
  { injection Hs as _ <-. unfold downloadKey.
    destruct (value _); [|extends_calls].
    destruct (GetCodec _ _) as [c|]; [|extends_calls].
    destruct (Encode c _); extends_calls. }
  destruct (Form req !! "viewKey") as [[|key ?]|]; [done| |].
  { injection Hs as _ <-. unfold viewKey.
    destruct (value _); [apply formatValue_extends|extends_calls]. }
  destruct (Form req !! "viewMsg") as [[|arg ?]|]; [done| |].
  { destruct (strconv_Atoi arg).
    2: { injection Hs as _ <-. extends_calls. }
    destruct (getSentAndReceivedMessages k) as [sent received].
    destruct (find _ _) as [m|]; injection Hs as _ <-; [|extends_calls].
    unfold viewMessage. destruct (GetCodec _ _) as [c|]; [|extends_calls].
    destruct (Decode c _); [apply formatValue_extends|extends_calls]. }
  destruct (Form req !! "deleteMessages") as [[|first ?]|];
    try (injection Hs as _ <-; apply servePage_extends).
  destruct (String.eqb first "true"); injection Hs as _ <-;
    [extends_calls|apply servePage_extends].
Qed.

(** X17. Every request that returns has been answered: [ServeHTTP] keeps
    the calls the writer had already received and adds at least one. *)
Theorem ServeHTTP_answers (now : Time) (st st' : State)
    (w w' : http.ResponseWriter) (req : Request) :
  ServeHTTP now st w req = Some (st', w') ->
  exists calls, w' = w ++ calls /\ calls <> [].
Proof.
  unfold ServeHTTP. intros Hs.
  destruct (getKV (svc st)) as [p|].
  2: { injection Hs as _ <-. extends_calls. }
  destruct (heap st !! p) as [k|]; [|done].
  destruct (serveKV now k w req) as [[k' w1]|] eqn:Hserve; [|done].
  injection Hs as _ <-. by eapply serveKV_extends.
Qed.

(** The wrapper's pointer, when set, refers to an allocated store. *)
Definition wf (st : State) : Prop :=
  forall p, getKV (svc st) = Some p -> is_Some (heap st !! p).

(** X11. Every operation of the wrapper keeps its pointer valid. *)
Theorem wf_preserved (now : Time) (st : State) (w : http.ResponseWriter)
    (req : Request) :
  wf st ->
  wf (snd (GetMemberlistKV st))
  /\ wf (snd (stopping st))
  /\ forall st' w', ServeHTTP now st w req = Some (st', w') -> wf st'.
Proof.
  intros Hwf. split; [|split].
  - unfold GetMemberlistKV, Once_Do. simpl.
    destruct (init_done (svc st)); [done|]. rewrite init_body_spec.
    intros p [= <-]. simpl. rewrite list_lookup_middle by done. by eexists.
  - unfold stopping. destruct (getKV (svc st)) as [p|] eqn:Hp; [|done].
    destruct (heap st !! p) as [k|] eqn:Hk; [|done].
    destruct (StopAndAwaitTerminated k) as [k' e]. simpl.
    intros q Hq. apply list_lookup_insert_is_Some. by apply Hwf.
  - intros st' w' Hs. destruct (ServeHTTP_frame _ _ _ _ _ _ Hs) as (Hsvc & _ & Hh).
    intros p Hp. rewrite Hsvc in Hp. destruct (Hwf p Hp) as [k Hk].
    destruct (Hh p k Hk) as (k' & Hk' & _). by eexists.
Qed.



(** X13. [formatValue] commits status 200 before it encodes anything: on a
    writer that has not sent its header the status is 200 even when the
    JSON encoding fails and [http.Error] asks for 500, and the content
    type is added only after the header was written. *)
Theorem formatValue_status_200 (w : http.ResponseWriter)
    (val : option GoValue) (format : string) :
  (exists rest,
     formatValue w val format
     = w ++ http.WriteHeader 200
          :: http.HeaderAdd "content-type" "text/plain" :: rest)
  /\ http.status (formatValue [] val format) = Some 200%Z.
Proof.
  unfold formatValue, http.call.
  destruct (String.eqb format "json" || String.eqb format "json-pretty").
  - destruct (json_Encode _ val); rewrite <- !app_assoc; simpl; eauto.
  - rewrite <- !app_assoc. simpl. eauto.
Qed.

(** X14. A [viewMsg] request that selects no message is an error response: 400
    with the conversion error when the argument is not an integer, 404
    when no logged message has that ID. *)
Theorem viewMsg_errors (now : Time) (k : KV) (w : http.ResponseWriter)
    (req : Request) (arg : string) (rest : list string) :
  ParseForm req = None ->
  Form req !! "downloadKey" = None ->
  Form req !! "viewKey" = None ->
  Form req !! "viewMsg" = Some (arg :: rest) ->
  selected_message k arg = None ->
  serveKV now k w req
  = Some (k, http.call w
               match strconv_Atoi arg with
               | inr e => http.Error (Error e) 400
               | inl _ => http.Error "message not found" 404
               end).
Proof.
  intros Hpf Hd Hvk Hvm Hsel. unfold serveKV. rewrite Hpf, Hd, Hvk, Hvm.
  unfold selected_message in Hsel. destruct (strconv_Atoi arg); [|done].
  unfold getSentAndReceivedMessages. by rewrite Hsel.
Qed.

(** X15. A key the store does not hold is reported as [value not found] by both
    [viewKey] and [downloadKey]; the latter does not even look for a
    codec. *)
Theorem missing_key_not_found (w : http.ResponseWriter) (k : KV)
    (st : gmap string valueDesc) (key format : string) :
  st !! key = None ->
  viewKey w st key format = http.call w (http.Error "value not found" 404)
  /\ downloadKey w k st key = http.call w (http.Error "value not found" 404).
Proof.
  intros Hk. unfold viewKey, downloadKey, store_index. by rewrite Hk.
Qed.

End Memberlist.

(** *** A small instance

    Values are integers, errors are their messages, nodes are their names,
    and the one codec, [counter], writes an integer in decimal. *)

Fixpoint digits (s : string) (acc : Z) : option Z :=
  match s with
  | EmptyString => Some acc
  | String a rest =>
      if Ascii.leb "0" a && Ascii.leb a "9"
      then digits rest (10 * acc + (Z.of_nat (nat_of_ascii a) - 48))
      else None
  end.

(** Decimal numbers with an optional sign, within the range of [int]. *)
Definition parse_int (s : string) : option Z :=
  let signed :=
    match s with
    | String "-" (String _ _ as rest) => Z.opp <$> digits rest 0
    | String "+" (String _ _ as rest) => digits rest 0
    | String _ _ => digits s 0
    | EmptyString => None
    end in
  match signed with
  | Some z => if ((- 2 ^ 63 <=? z) && (z <? 2 ^ 63))%Z then Some z else None
  | None => None
  end.

Definition Atoi (s : string) : Z + string :=
  match parse_int s with
  | Some z => inl z
  | None => inr ("strconv.Atoi: parsing " +:+ s +:+ ": invalid syntax")
  end.

Fixpoint insert_sorted (less : string -> string -> bool) (x : string)
    (l : list string) : list string :=
  match l with
  | [] => [x]
  | y :: rest =>
      if less y x then y :: insert_sorted less x rest else x :: l
  end.

#[export] Instance sample_Go : Go := {|
  GoValue := Z;
  error := string;
  KVConfig := unit;
  Memberlist := list string;
  Node := string;
  Time := Z;
  Error := fun e => e;
  Node_Name := fun n => n;
  Members := fun m => m;
  strconv_Atoi := Atoi;
  json_Encode := fun _ v =>
    match v with
    | Some z => inl (pretty z +:+ String "010" "")
    | None => inl ("null" +:+ String "010" "")
    end;
  fmt_GoSyntax := fun v =>
    match v with Some z => pretty z | None => "<nil>" end;
  sort_Slice := fun l less => foldr (insert_sorted less) [] l;
|}.

Definition counter : codec_Codec := {|
  Decode := fun b =>
    match parse_int b with
    | Some z => inl (Some z)
    | None => inr "not a counter"
    end;
  Encode := fun v =>
    match v with
    | Some z => inl (pretty z)
    | None => inr "no value"
    end;
|}.

#[export] Instance sample_Runtime : Runtime := {|
  NewKV := fun _ =>
    {| codecs := {[ "counter" := counter ]}; store := ∅;
       sentMessages := []; receivedMessages := [];
       memberlist := []; state := New |};
  StartAsync := fun k =>
    match state k with
    | New => (with_state k Starting, None)
    | _ => (k, Some "invalid service state")
    end;
  shutdown := fun _ => None;
  json_EncodePage := fun v => inl "{}";
  template_Execute := fun v => (["<html>"; "</html>"], None);
|}.

(** A running store holding one counter, one value whose codec is not
    registered, and a log of two messages. *)
Definition sample_kv : KV := {|
  codecs := {[ "counter" := counter ]};
  store := {[ "hits" := {| value := Some 5%Z; version := 3; codecID := "counter" |};
              "ring" := {| value := Some 1%Z; version := 1; codecID := "ringDesc" |} ]};
  sentMessages :=
    [ {| ID := 1; Pair := {| Key := "hits"; Value := "5"; Codec := "counter" |} |} ];
  receivedMessages :=
    [ {| ID := 2; Pair := {| Key := "ring"; Value := "x"; Codec := "ringDesc" |} |} ];
  memberlist := ["node-b"; "node-a"];
  state := Running;
|}.

Definition sample_state : State := {|
  svc := {| cfg := (); init_done := true; kv := Some 0; err := None;
            watcher := [0] |};
  heap := [sample_kv];
|}.

Definition form (params : list (string * list string)) : Request := {|
  ParseForm := None;
  Form := list_to_map params;
  Header := ∅;
|}.

Definition cfg0 : @KVConfig sample_Go := ().
Definition noon : @Time sample_Go := 0%Z.
Definition store_failed : @error sample_Go := "store failed".

Definition new_state : State := {| svc := NewKVInitService cfg0; heap := [] |}.

Lemma GetMemberlistKV_concurrent_witness :
  (Some 0, None) = fst (GetMemberlistKV new_state)
  /\ shared (run [0; 1; 2; 1; 0; 1; 1; 1; 1; 1; 1; 1; 2; 1; 1; 0]
               (start cfg0 [] 3))
    = snd (GetMemberlistKV new_state)
  /\ Some 0 = Some (List.length (@nil KV))
  /\ None = snd (StartAsync (NewKV cfg0))
  /\ heap (shared (run [0; 1; 2; 1; 0; 1; 1; 1; 1; 1; 1; 1; 2; 1; 1; 0]
                     (start cfg0 [] 3)))
    = [] ++ [fst (StartAsync (NewKV cfg0))].
Proof.
  apply (proj1 (proj2 (GetMemberlistKV_concurrent cfg0 [] 3
                         [0; 1; 2; 1; 0; 1; 1; 1; 1; 1; 1; 1; 2; 1; 1; 0])) 1).
  reflexivity.
Defined.

Lemma running_returns_witness :
  running true [Quiet; Quiet] = None
  /\ running true ([Quiet; Quiet] ++ CtxDone :: [Quiet]) = Some None
  /\ running true ([Quiet; Quiet] ++ WatcherFailed store_failed :: [Quiet])
    = Some (Some store_failed)
  /\ running true ([Quiet; Quiet] ++ BothReady store_failed :: [Quiet])
    = Some (if true then None else Some store_failed).
Proof.
  apply (running_returns true [Quiet; Quiet] [Quiet] store_failed).
  repeat constructor.
Defined.

Lemma running_cause_witness :
  exists before s rest,
    [Quiet; WatcherFailed store_failed; CtxDone] = before ++ s :: rest
    /\ quiet before
    /\ (s = WatcherFailed store_failed
        \/ (s = BothReady store_failed /\ false = false)).
Proof.
  apply (running_cause false [Quiet; WatcherFailed store_failed; CtxDone]
           (Some store_failed)).
  reflexivity.
Defined.

Lemma stopping_spec_witness :
  stopping new_state = (None, new_state)
  /\ exists k',
      stopping sample_state
      = (match state k' with Failed cause => Some cause | _ => None end,
         {| svc := svc sample_state; heap := <[0 := k']> (heap sample_state) |})
      /\ terminal (state k') = true
      /\ k' = with_state sample_kv (state k').
Proof.
  split.
  - apply (proj1 (stopping_spec new_state)). reflexivity.
  - apply (proj2 (stopping_spec sample_state) 0 sample_kv); reflexivity.
Defined.

Lemma codec_absent_is_diagnosed_witness :
  serveKV noon sample_kv [] (form [("downloadKey", ["ring"])])
  = Some (sample_kv, http.call [] codec_not_found)
  /\ serveKV noon sample_kv [] (form [("viewMsg", ["2"])])
    = Some (sample_kv, http.call [] codec_not_found).
Proof.
  pose proof (codec_absent_is_diagnosed noon sample_kv []
                (form [("downloadKey", ["ring"])])) as (_ & _ & Hdl & _).
  pose proof (codec_absent_is_diagnosed noon sample_kv []
                (form [("viewMsg", ["2"])])) as (_ & _ & _ & Hvm).
  split.
  - apply (Hdl "ring" []); try reflexivity.
    change (Some 1%Z <> None). discriminate.
  - apply (Hvm "2" []
             {| ID := 2;
                Pair := {| Key := "ring"; Value := "x"; Codec := "ringDesc" |} |});
      reflexivity.
Defined.

Definition cleared_state : State := {|
  svc := svc sample_state;
  heap := [deleteSentReceivedMessages sample_kv];
|}.


Lemma ServeHTTP_read_only_witness :
  svc cleared_state = svc sample_state
  /\ List.length (heap cleared_state) = List.length (heap sample_state)
  /\ forall q k, heap sample_state !! q = Some k ->
       exists k', heap cleared_state !! q = Some k'
         /\ store k' = store k /\ codecs k' = codecs k
         /\ memberlist k' = memberlist k /\ state k' = state k
         /\ (k' = k
             \/ (clears_messages (form [("deleteMessages", ["true"; "false"])])
                 /\ getKV (svc sample_state) = Some q
                 /\ sentMessages k' = [] /\ receivedMessages k' = [])).
Proof.
  apply (ServeHTTP_read_only noon sample_state cleared_state []
           [http.HeaderSet "Location" "?deleteMessages=false";
            http.WriteHeader 302]
           (form [("deleteMessages", ["true"; "false"])])).
  reflexivity.
Defined.




Lemma ServeHTTP_never_initialises_witness :
  ServeHTTP noon new_state [] (form [("viewKey", ["hits"])])
  = Some (new_state,
          [] ++ [http.HeaderSet "Content-Type" "text/plain";
                 http.Write "This instance doesn't use memberlist."]).
Proof.
  apply (proj1 (ServeHTTP_never_initialises noon new_state []
                  (form [("viewKey", ["hits"])]))).
  reflexivity.
Defined.

Lemma wf_sample_state : wf sample_state.
Proof. intros p [= <-]. by eexists. Qed.

Lemma wf_preserved_witness :
  wf (snd (GetMemberlistKV sample_state))
  /\ wf (snd (stopping sample_state))
  /\ forall st' w',
       ServeHTTP noon sample_state []
         (form [("deleteMessages", ["true"; "false"])]) = Some (st', w') ->
       wf st'.
Proof.
  apply (wf_preserved noon sample_state []
           (form [("deleteMessages", ["true"; "false"])])), wf_sample_state.
Defined.


Lemma one_goroutine_is_sequential_witness :
  run (replicate 11 2) (start cfg0 [] 4)
  = {| shared := snd (GetMemberlistKV new_state); mutex := false;
       threads := <[2 := Returned (fst (fst (GetMemberlistKV new_state)))
                                  (snd (fst (GetMemberlistKV new_state)))]>
                    (replicate 4 AtDo) |}.
Proof. apply (one_goroutine_is_sequential cfg0 [] 4 2). lia. Defined.

Lemma ServeHTTP_answers_witness :
  exists calls,
    [http.HeaderSet "Location" "?deleteMessages=false"; http.WriteHeader 302]
    = [] ++ calls /\ calls <> [].
Proof.
  apply (ServeHTTP_answers noon sample_state cleared_state []
           [http.HeaderSet "Location" "?deleteMessages=false";
            http.WriteHeader 302]
           (form [("deleteMessages", ["true"; "false"])])).
  reflexivity.
Defined.

Lemma viewMsg_errors_witness :
  serveKV noon sample_kv [] (form [("viewMsg", ["7"])])
  = Some (sample_kv,
          http.call []
            match strconv_Atoi "7" with
            | inr e => http.Error (Error e) 400
            | inl _ => http.Error "message not found" 404
            end).
Proof.
  apply (viewMsg_errors noon sample_kv [] (form [("viewMsg", ["7"])]) "7" []);
    reflexivity.
Defined.

Lemma missing_key_not_found_witness :
  viewKey [] (store sample_kv) "absent" "json"
  = http.call [] (http.Error "value not found" 404)
  /\ downloadKey [] sample_kv (store sample_kv) "absent"
    = http.call [] (http.Error "value not found" 404).
Proof.
  apply (missing_key_not_found [] sample_kv (store sample_kv) "absent" "json").
  reflexivity.
Defined.

End memberlist.
